(** * CSZ-Bot: nickname voting workflow and loot storage service

    A shallow embedding of
    - [src/commands/nickname.ts]: the weighted, threshold based vote on a
      nickname suggestion, held in two process-global JS objects, and
    - the loot storage service (kysely queries over the [loot] and
      [lootAttribute] tables): soft deletion, ownership transfer and the
      idempotent attribute insert.

    The JS objects used as dictionaries are finite maps ([gmap]) with string
    keys; the tables are lists of rows in insertion order; code that can
    throw returns a [result]. *)

From Stdlib Require Import ZArith List Lia.
From stdpp Require Import gmap strings list fin_maps sorting.

Local Open Scope Z_scope.

(* ===================================================================== *)
(** ** Part I: the nickname vote ([src/commands/nickname.ts])            *)
(* ===================================================================== *)

Module Nickname.

(** [type Vote = "YES" | "NO"] *)
Inductive Vote := YES | NO.

#[global] Instance Vote_eq_dec : EqDecision Vote.
Proof. solve_decision. Defined.

(** [interface UserVote { vote; trusted }] *)
Record UserVote := mkUserVote { vote : Vote; trusted : bool }.

#[global] Instance UserVote_eq_dec : EqDecision UserVote.
Proof. solve_decision. Defined.

(** [getWeightOfUserVote]: [vote.trusted ? 2 : 1] *)
Definition getWeightOfUserVote (v : UserVote) : Z :=
  if trusted v then 2 else 1.

(** [interface Suggestion { nicknameUserID; nickname }] *)
Record Suggestion := mkSuggestion { nicknameUserID : string; nickname : string }.

(** The [Nickname] table behind [Nicknames.*]: rows (userId, nickName). *)
Definition NicknameTable := list (string * string).

(** The mutable state the handlers work on: the two module-level constants
    [ongoingSuggestions] and [idVoteMap] (both keyed by message id, the inner
    vote map keyed by the voter's user id) and the persisted nicknames. *)
Record State := mkState {
  ongoingSuggestions : gmap string Suggestion;
  idVoteMap : gmap string (gmap string UserVote);
  nicknames : NicknameTable
}.

(** What a handler does towards the database and the chat platform, in
    the order of the calls.  [components = Some l] stands for an options
    object carrying [components: l]; [None] for a call that passes none
    (the buttons of the message stay as they are). *)
Inductive Event :=
| InsertNickname (userId nickName : string)
| Update (content : string) (components : option (list string))
| Reply (content : string) (components : option (list string)) (ephemeral : bool).

#[global] Instance Event_eq_dec : EqDecision Event.
Proof. solve_decision. Defined.

(** Modelled from the spec: [Nicknames.nickNameExist] of
    [storage/model/Nickname], which is not part of the sources at hand.
    "Nickname text unique per user". *)
Definition nickNameExist (userId nickName : string) (t : NicknameTable) : bool :=
  bool_decide ((userId, nickName) ∈ t).

(** Modelled from the spec: [Nicknames.insertNickname] of
    [storage/model/Nickname], which is not part of the sources at hand.
    The insert raises on a uniqueness conflict ([None]) and appends the
    row otherwise. *)
Definition insertNickname (userId nickName : string) (t : NicknameTable)
  : option NicknameTable :=
  if nickNameExist userId nickName t then None
  else Some (t ++ [(userId, nickName)]).

(** [getUserVoteMap]: creates the empty vote map of a message on first
    use and hands out the map stored under the message id. *)
Definition getUserVoteMap (messageid : string) (st : State)
  : State * gmap string UserVote :=
  match idVoteMap st !! messageid with
  | None =>
      (mkState (ongoingSuggestions st) (<[messageid := ∅]> (idVoteMap st)) (nicknames st), ∅)
  | Some m => (st, m)
  end.

(** [userVoteMap[key] = v] on the map handed out by [getUserVoteMap]: the
    map is shared with [idVoteMap], so the write lands in the state. *)
Definition setUserVote (messageid key : string) (v : UserVote) (st : State) : State :=
  mkState (ongoingSuggestions st)
          (<[messageid := <[key := v]> (default ∅ (idVoteMap st !! messageid))]> (idVoteMap st))
          (nicknames st).

(** [Object.values(userVoteMap)].  JS lists the values in insertion order,
    [map_to_list] in the order of the map's representation; the tally below
    is a sum and does not depend on it ([weightOf_Permutation]). *)
Definition Object_values (m : gmap string UserVote) : list UserVote :=
  (map_to_list m).*2.

(** [votes.filter(v => v.vote === which).reduce((sum, v) => sum + getWeightOfUserVote(v), 0)] *)
Definition weightOf (which : Vote) (votes : list UserVote) : Z :=
  foldl (λ sum uservote, sum + getWeightOfUserVote uservote) 0
        (filter (λ userVote, vote userVote = which) votes).

(** What one vote adds to the sum for [which]. *)
Definition contribution (which : Vote) (v : UserVote) : Z :=
  if decide (vote v = which) then getWeightOfUserVote v else 0.

(** The tally in the words of the specification: the number of voters of
    the map whose vote is [which] and whose trust flag is [t] ... *)
Definition countVoters (which : Vote) (t : bool) (m : gmap string UserVote) : Z :=
  Z.of_nat (size (filter (λ kv, vote kv.2 = which ∧ trusted kv.2 = t) m)).

(** ... weight 2 per trusted voter's vote, weight 1 per untrusted one's. *)
Definition summedWeight (which : Vote) (m : gmap string UserVote) : Z :=
  2 * countVoters which true m + 1 * countVoters which false m.

(** [readonly threshold = 5] *)
Definition threshold : Z := 5.

(** A button press: the message it sits on, who pressed and which button. *)
Record Interaction := mkInteraction {
  message_id : string;
  user_id : string;
  customId : string
}.

Definition msgNotFound : string :=
  "Ich find den Namensvorschlag nicht. Irgend ein Huso muss wohl den Bot neugestartet haben. Macht am besten ne Neue auf".
Definition msgNotCool : string :=
  "Neeeeee, du bist nicht cool genug. Ich hab dein Vote nicht gezählt".
Definition msgRejected (s : Suggestion) : string :=
  "Der Vorschlag: `" +:+ nickname s +:+ "` für <@" +:+ nicknameUserID s +:+ "> war echt nicht so geil".
Definition msgExists (s : Suggestion) : string :=
  "Würdet ihr Hurensöhne aufpassen, wüsstest ihr, dass für <@" +:+ nicknameUserID s
    +:+ "> `" +:+ nickname s +:+ "` bereits existiert.".
Definition msgAccepted (s : Suggestion) : string :=
  "Für <@" +:+ nicknameUserID s +:+ "> ist jetzt  `" +:+ nickname s +:+ "` in der Rotation".
Definition msgVoted : string := "Hast abgestimmt".

(** The four ways a counted vote ends, as the calls the handler makes. *)
Definition rejected (s : Suggestion) (evs : list Event) : Prop :=
  evs = [Update (msgRejected s) (Some [])].
Definition accepted (s : Suggestion) (evs : list Event) : Prop :=
  evs = [InsertNickname (nicknameUserID s) (nickname s); Update (msgAccepted s) (Some [])].
Definition conflict (s : Suggestion) (evs : list Event) : Prop :=
  evs = [InsertNickname (nicknameUserID s) (nickname s); Update (msgExists s) None].
Definition acknowledged (evs : list Event) : Prop :=
  evs = [Reply msgVoted None true].

(** The vote map of a message as [getUserVoteMap] would hand it out. *)
Definition votesOf (messageid : string) (st : State) : gmap string UserVote :=
  default ∅ (idVoteMap st !! messageid).

Section Handlers.

(** [isTrusted] of [utils/userUtils] applied to the guild member with the
    given user id; the guild's role cache is not part of the state above. *)
Variable isTrusted : string → bool.

(** The vote a button stands for; any other [customId] records nothing. *)
Definition recordVote (interaction : Interaction) (isTrust : bool) (st : State) : State :=
  if decide (customId interaction = "nicknameVoteYes") then
    setUserVote (message_id interaction) (user_id interaction) (mkUserVote YES isTrust) st
  else if decide (customId interaction = "nicknameVoteNo") then
    setUserVote (message_id interaction) (user_id interaction) (mkUserVote NO isTrust) st
  else st.

(** What [recordVote] leaves in the vote map of the message. *)
Definition recorded (i : Interaction) (isTrust : bool) (m : gmap string UserVote)
  : gmap string UserVote :=
  if decide (customId i = "nicknameVoteYes") then <[user_id i := mkUserVote YES isTrust]> m
  else if decide (customId i = "nicknameVoteNo") then <[user_id i := mkUserVote NO isTrust]> m
  else m.

(** [NicknameButtonHandler.handleInteraction] *)
Definition handleInteraction (interaction : Interaction) (st : State)
  : State * list Event :=
  match ongoingSuggestions st !! message_id interaction with
  | None => (st, [Update msgNotFound (Some [])])
  | Some suggestion =>
      let '(st1, _) := getUserVoteMap (message_id interaction) st in
      let isTrust := isTrusted (user_id interaction) in
      if negb isTrust then (st1, [Reply msgNotCool None true])
      else
        let st2 := recordVote interaction isTrust st1 in
        let votes := Object_values (votesOf (message_id interaction) st2) in
        if decide (threshold ≤ weightOf NO votes) then
          (st2, [Update (msgRejected suggestion) (Some [])])
        else if decide (threshold ≤ weightOf YES votes) then
          match insertNickname (nicknameUserID suggestion) (nickname suggestion) (nicknames st2) with
          | None =>
              (st2, [InsertNickname (nicknameUserID suggestion) (nickname suggestion);
                     Update (msgExists suggestion) None])
          | Some t =>
              (mkState (ongoingSuggestions st2) (idVoteMap st2) t,
               [InsertNickname (nicknameUserID suggestion) (nickname suggestion);
                Update (msgAccepted suggestion) (Some [])])
          end
        else (st2, [Reply msgVoted None true])
  end.

(** [Nickname.createNickNameVote]; [messageId] is the id of the reply that
    carries the two buttons ([command.fetchReply()]). *)
Definition createNickNameVote (messageId userId nickname : string) (st : State)
  : State * list Event :=
  let st1 := mkState (<[messageId := mkSuggestion userId nickname]> (ongoingSuggestions st))
                     (idVoteMap st) (nicknames st) in
  let '(st2, _) := getUserVoteMap messageId st1 in
  (setUserVote messageId userId (mkUserVote YES (isTrusted userId)) st2,
   [Reply ("Eh Brudis, soll ich für <@" +:+ userId +:+ "> " +:+ nickname +:+ " hinzufügen?")
          (Some ["nicknameVoteYes"; "nicknameVoteNo"]) false]).

(** The [add] branch of [Nickname.handleInteraction]: [hasTrustedRole] is
    [commandUser.roles.cache.has(config.ids.trusted_role_id)]. *)
Definition handleAdd (hasTrustedRole : bool) (messageId userId nickname : string)
    (st : State) : State * list Event :=
  if negb hasTrustedRole then
    (st, [Reply "Hurensohn. Der Command ist nix für dich." None false])
  else if nickNameExist userId nickname (nicknames st) then
    (st, [Reply ("Würdest du Hurensohn aufpassen, wüsstest du, dass für <@" +:+ userId
                   +:+ "> '" +:+ nickname +:+ "' bereits existiert.") None false])
  else createNickNameVote messageId userId nickname st.

End Handlers.

(** The vote behind a button id. *)
Definition buttonVote (customId : string) : option Vote :=
  if decide (customId = "nicknameVoteYes") then Some YES
  else if decide (customId = "nicknameVoteNo") then Some NO
  else None.

(** *** Sample runs *)

Definition everyoneTrusted : string → bool := λ _, true.
Definition guestTarget : string → bool := λ u, bool_decide (u ≠ "target").

Definition boot : State := mkState ∅ ∅ [].
Definition brudi : Suggestion := mkSuggestion "target" "Brudi".
Definition pressYes (u : string) : Interaction := mkInteraction "m1" u "nicknameVoteYes".
Definition pressNo (u : string) : Interaction := mkInteraction "m1" u "nicknameVoteNo".

(** [/nickname add target Brudi] by a trusted member, answered in message
    [m1]; then alice agrees. *)
Definition proposed : State := (handleAdd everyoneTrusted true "m1" "target" "Brudi" boot).1.
Definition afterAlice : State := (handleInteraction everyoneTrusted (pressYes "alice") proposed).1.

(** The same with alice and bob against it. *)
Definition afterAliceNo : State := (handleInteraction everyoneTrusted (pressNo "alice") proposed).1.
Definition afterBobNo : State := (handleInteraction everyoneTrusted (pressNo "bob") afterAliceNo).1.

(** The nickname got into the table while the vote was running. *)
Definition afterAliceTaken : State :=
  mkState (ongoingSuggestions afterAlice) (idVoteMap afterAlice) [("target", "Brudi")].

End Nickname.

(* ===================================================================== *)
(** ** Part II: the loot storage service (kysely over SQLite)            *)
(* ===================================================================== *)

Module Loot.

(** Errors a statement can raise: kysely's [NoResultError] of
    [executeTakeFirstOrThrow], and a constraint violation of the engine. *)
Inductive DbError := NoResultError | ConstraintError.

Inductive result (A : Type) :=
| Ok (a : A)
| Err (e : DbError).
Arguments Ok {A} a.
Arguments Err {A} e.

(** Modelled from the spec: the columns of [loot] as listed in the storage
    schema; the table types of [db/model.js] are not part of the sources at
    hand.  Timestamps of the database clock are integers ordered by time.
    [I] is the type of the [id] column: [Z] in a stored row, [option Z] in
    the values of an insert, where the key may be left out. *)
Record LootRow (I : Type) := mkLoot {
  id : I;
  displayName : string;
  description : string;
  lootKindId : Z;
  usedImage : option string;
  winnerId : string;
  claimedAt : string;
  guildId : string;
  channelId : string;
  messageId : string;
  origin : string;
  predecessor : option Z;
  deletedAt : option Z
}.
Arguments mkLoot {I}.
Arguments id {I}.
Arguments displayName {I}.
Arguments description {I}.
Arguments lootKindId {I}.
Arguments usedImage {I}.
Arguments winnerId {I}.
Arguments claimedAt {I}.
Arguments guildId {I}.
Arguments channelId {I}.
Arguments messageId {I}.
Arguments origin {I}.
Arguments predecessor {I}.
Arguments deletedAt {I}.

Abbreviation Loot := (LootRow Z).
Abbreviation LootInsertable := (LootRow (option Z)).

(** Modelled from the spec: the columns of [lootAttribute]. *)
Record LootAttribute := mkLootAttribute {
  attrId : Z;
  lootId : Z;
  attributeKindId : Z;
  attributeClassId : Z;
  attrDisplayName : string;
  shortDisplay : string;
  color : option Z;
  attrDeletedAt : option Z
}.

(** [interface LootTemplate], the data fields. *)
Record LootTemplate := mkLootTemplate {
  tplId : Z;
  weight : Z;
  tplDisplayName : string;
  titleText : string;
  dropDescription : string;
  asset : option string
}.

(** [interface LootAttributeTemplate] *)
Record LootAttributeTemplate := mkLootAttributeTemplate {
  atId : Z;
  classId : Z;
  atDisplayName : string;
  atShortDisplay : string;
  atColor : option Z;
  initialDropWeight : option Z
}.

(** The two tables, rows in insertion order. *)
Record Database := mkDatabase {
  loot : list Loot;
  lootAttribute : list LootAttribute
}.

(** A statement or a transaction body: it reads and changes the database
    or raises.  An error carries no database: the caller is left with the
    one it had, which is what a rolled back transaction leaves behind. *)
Definition M (A : Type) : Type := Database → result (A * Database).

Definition ret {A} (a : A) : M A := λ db, Ok (a, db).

Definition bind {A B} (m : M A) (k : A → M B) : M B := λ db,
  match m db with
  | Ok (a, db') => k a db'
  | Err e => Err e
  end.

Notation "'let*' x ':=' m 'in' k" := (bind m (λ x, k))
  (at level 10, x name, m at level 100, k at level 200, only parsing).

(** [ctx.transaction().execute(body)] *)
Definition transaction {A} (body : M A) : M A := body.

(** [.executeTakeFirstOrThrow()] on the rows a statement returned. *)
Definition takeFirstOrThrow {A} (rows : list A) : M A := λ db,
  match rows with
  | [] => Err NoResultError
  | r :: _ => Ok (r, db)
  end.

(** [notDeleted]: [deletedAt is null or deletedAt > current_timestamp] *)
Definition notDeleted (current_timestamp : Z) (deletedAt : option Z) : bool :=
  match deletedAt with
  | None => true
  | Some d => bool_decide (current_timestamp < d)
  end.

(** [hasAttribute]: [id in (select lootId from lootAttribute where
    attributeKindId = k)] *)
Definition hasAttribute (attributeKindId' : Z) (db : Database) (r : Loot) : bool :=
  bool_decide (id r ∈ lootId <$> filter (λ a, attributeKindId a = attributeKindId') (lootAttribute db)).

(** A row of the table that is active at time [t]. *)
Definition activeRow (t : Z) (db : Database) (r : Loot) : Prop :=
  r ∈ loot db ∧ notDeleted t (deletedAt r) = true.

Section Queries.

(** The value of [current_timestamp] when the statement runs. *)
Variable current_timestamp : Z.

Definition findOfUser (user : string) (db : Database) : list Loot :=
  filter (λ r, notDeleted current_timestamp (deletedAt r))
    (filter (λ r, winnerId r = user) (loot db)).

Definition findOfUserWithAttributes (user : string) (db : Database)
  : list (Loot * list LootAttribute) :=
  (λ l, (l, filter (λ a, notDeleted current_timestamp (attrDeletedAt a))
              (filter (λ a, lootId a = id l) (lootAttribute db))))
    <$> findOfUser user db.

Definition findOfMessage (message : string) (db : Database) : option Loot :=
  head (filter (λ r, notDeleted current_timestamp (deletedAt r))
          (filter (λ r, messageId r = message) (loot db))).

Definition getUserLootsByTypeId (userId : string) (lootKindId' : Z) (db : Database)
  : list Loot :=
  filter (λ r, notDeleted current_timestamp (deletedAt r))
    (filter (λ r, lootKindId r = lootKindId')
       (filter (λ r, winnerId r = userId) (loot db))).

Definition getUserLootsWithAttribute (userId : string) (attributeKindId' : Z)
    (db : Database) : list Loot :=
  filter (λ r, hasAttribute attributeKindId' db r)
    (filter (λ r, notDeleted current_timestamp (deletedAt r))
       (filter (λ r, winnerId r = userId) (loot db))).

Definition getUserLootById (userId : string) (lootId' : Z) (db : Database)
  : option Loot :=
  head (filter (λ r, notDeleted current_timestamp (deletedAt r))
          (filter (λ r, id r = lootId')
             (filter (λ r, winnerId r = userId) (loot db)))).

Definition getLootsByKindId (lootKindId' : Z) (db : Database) : list Loot :=
  filter (λ r, notDeleted current_timestamp (deletedAt r))
    (filter (λ r, lootKindId r = lootKindId') (loot db)).

Definition getLootsWithAttribute (attributeKindId' : Z) (db : Database) : list Loot :=
  filter (λ r, hasAttribute attributeKindId' db r)
    (filter (λ r, notDeleted current_timestamp (deletedAt r)) (loot db)).

End Queries.

(** The key the engine gives a row inserted without one: one more than
    the largest key in the table. *)
Definition nextId (rows : list Loot) : Z := 1 + foldr Z.max 0 (id <$> rows).

Definition withId {I J} (i : J) (v : LootRow I) : LootRow J :=
  mkLoot i (displayName v) (description v) (lootKindId v) (usedImage v) (winnerId v)
         (claimedAt v) (guildId v) (channelId v) (messageId v) (origin v)
         (predecessor v) (deletedAt v).

(** [insertInto("loot").values(v).returningAll()]: the stored row.  A
    given key that is already taken violates the primary key. *)
Definition insertIntoLoot (values : LootInsertable) : M Loot := λ db,
  match id values with
  | None =>
      let row := withId (nextId (loot db)) values in
      Ok (row, mkDatabase (loot db ++ [row]) (lootAttribute db))
  | Some i =>
      if bool_decide (i ∈ id <$> loot db) then Err ConstraintError
      else
        let row := withId i values in
        Ok (row, mkDatabase (loot db ++ [row]) (lootAttribute db))
  end.

Definition nextAttrId (rows : list LootAttribute) : Z :=
  1 + foldr Z.max 0 (attrId <$> rows).

(** Modelled from the spec: the uniqueness of [lootAttribute] rows per
    (lootId, attributeKindId), declared in the migrations, which are not
    part of the sources at hand.  A soft-deleted row still holds its key. *)
Definition attributeConflict (lootId' attributeKindId' : Z) (rows : list LootAttribute) : bool :=
  bool_decide (Exists (λ a, lootId a = lootId' ∧ attributeKindId a = attributeKindId') rows).

(** [insertInto("lootAttribute").values(..).onConflict(oc => oc.doNothing())
    .returningAll()]: the rows the statement returns.  On a conflict the
    insert is skipped and [returning] has no row to give. *)
Definition insertLootAttributeOnConflictDoNothing
    (lootId' : Z) (attributeTemplate : LootAttributeTemplate)
  : Database → list LootAttribute * Database := λ db,
  if attributeConflict lootId' (atId attributeTemplate) (lootAttribute db) then ([], db)
  else
    let row := mkLootAttribute (nextAttrId (lootAttribute db)) lootId'
                 (atId attributeTemplate) (classId attributeTemplate)
                 (atDisplayName attributeTemplate) (atShortDisplay attributeTemplate)
                 (atColor attributeTemplate) None in
    ([row], mkDatabase (loot db) (lootAttribute db ++ [row])).

(** The rows of [lootAttribute] under one (lootId, attributeKindId). *)
Definition attributesOfKind (lootId' attributeKindId' : Z) (db : Database)
  : list LootAttribute :=
  filter (λ a, lootId a = lootId' ∧ attributeKindId a = attributeKindId') (lootAttribute db).

(** [addLootAttributeIfNotPresent] *)
Definition addLootAttributeIfNotPresent
    (lootId' : Z) (attributeTemplate : LootAttributeTemplate) : M LootAttribute := λ db,
  let '(rows, db') := insertLootAttributeOnConflictDoNothing lootId' attributeTemplate db in
  takeFirstOrThrow rows db'.

(** [createLoot]; [message] carries (guildId, channelId, id) of the drop
    message, [now] is [now.toISOString()].  [res.id] goes on to the attribute
    insert as the stored key; the program has it as the JS number the driver
    returned, which is the stored key up to 2^53 ([toNumber]). *)
Definition createLoot (template : LootTemplate) (winner : string)
    (message : option (string * string * string)) (now : string) (origin' : string)
    (predecessorLootId : option Z) (rarityAttribute : option LootAttributeTemplate)
  : M Loot :=
  transaction (
    let* res := insertIntoLoot
      (mkLoot None (tplDisplayName template) (dropDescription template) (tplId template)
         (asset template) winner now
         (from_option (λ m, m.1.1) "" message)
         (from_option (λ m, m.1.2) "" message)
         (from_option (λ m, m.2) "" message)
         origin' predecessorLootId None) in
    match rarityAttribute with
    | Some a => let* _ := addLootAttributeIfNotPresent (id res) a in ret res
    | None => ret res
    end).

(** [set({ deletedAt: d })] on one row. *)
Definition setDeletedAt (d : option Z) (r : Loot) : Loot :=
  mkLoot (id r) (displayName r) (description r) (lootKindId r) (usedImage r)
         (winnerId r) (claimedAt r) (guildId r) (channelId r) (messageId r)
         (origin r) (predecessor r) d.

(** [updateTable("loot").where("id", "=", lootId).set({ deletedAt:
    current_timestamp })] on the rows of the table. *)
Definition updateDeletedAt (current_timestamp lootId' : Z) (rows : list Loot) : list Loot :=
  (λ r, if decide (id r = lootId') then setDeletedAt (Some current_timestamp) r else r)
    <$> rows.

(** [selectFrom("loot").where("id", "=", lootId).selectAll()] *)
Definition selectLootById (lootId' : Z) (db : Database) : list Loot :=
  filter (λ r, id r = lootId') (loot db).

Section Mutations.

(** The value of [current_timestamp] when the update runs. *)
Variable current_timestamp : Z.

(** [deleteLoot]: [update loot set deletedAt = current_timestamp where
    id = lootId returning id], first row or throw. *)
Definition deleteLoot (lootId' : Z) : M Z := λ db,
  let returning := id <$> filter (λ r, id r = lootId') (loot db) in
  let updated := updateDeletedAt current_timestamp lootId' (loot db) in
  takeFirstOrThrow returning (mkDatabase updated (lootAttribute db)).

(** [transferLootToUser] *)
Definition transferLootToUser (lootId' : Z) (userId : string) (trackPredecessor : bool)
  : M Loot :=
  transaction (
    let* oldLoot := (λ db, takeFirstOrThrow (selectLootById lootId' db) db) in
    let* _ := deleteLoot (id oldLoot) in
    (* { ...oldLoot, winnerId, origin, predecessor } *)
    let replacement : LootInsertable :=
      mkLoot (Some (id oldLoot)) (displayName oldLoot) (description oldLoot)
        (lootKindId oldLoot) (usedImage oldLoot) userId (claimedAt oldLoot)
        (guildId oldLoot) (channelId oldLoot) (messageId oldLoot)
        "owner-transfer" (if trackPredecessor then Some lootId' else None)
        (deletedAt oldLoot) in
    (* delete replacement.id *)
    let replacement : LootInsertable := withId None replacement in
    insertIntoLoot replacement).

(** [replaceLoot] *)
Definition replaceLoot (lootId' : Z) (replacementLoot : LootInsertable)
    (trackPredecessor : bool) : M Loot :=
  transaction (
    let* _ := deleteLoot lootId' in
    let replacement : LootInsertable :=
      mkLoot (id replacementLoot) (displayName replacementLoot) (description replacementLoot)
        (lootKindId replacementLoot) (usedImage replacementLoot) (winnerId replacementLoot)
        (claimedAt replacementLoot) (guildId replacementLoot) (channelId replacementLoot)
        (messageId replacementLoot) (origin replacementLoot)
        (if trackPredecessor then Some lootId' else None) (deletedAt replacementLoot) in
    insertIntoLoot replacement).

End Mutations.

(** An integer of the table as the driver hands it to the program: the
    JS number nearest to it (an IEEE double: 53 bits of mantissa, ties to
    even). *)
Definition toNumber (n : Z) : Z :=
  let a := Z.abs n in
  if a <? 2 ^ 53 then n
  else
    let e := Z.log2 a - 52 in
    let q := a / 2 ^ e in
    let r := a mod 2 ^ e in
    let half := 2 ^ (e - 1) in
    let q' := if r <? half then q
              else if half <? r then q + 1
              else if Z.even q then q else q + 1 in
    Z.sgn n * (q' * 2 ^ e).

(** The order of [orderBy("lootAttribute.attributeKindId asc")]. *)
Definition byAttributeKindId (a b : LootAttribute) : Prop :=
  attributeKindId a ≤ attributeKindId b.

#[global] Instance byAttributeKindId_dec : RelDecision byAttributeKindId.
Proof. intros a b. unfold byAttributeKindId. apply _. Defined.

(** [getLootAttributes]: the active attribute rows of a loot, ordered by
    kind.  Rows of equal kind come in the order the sort leaves them; the
    engine promises none. *)
Definition getLootAttributes (current_timestamp lootId' : Z) (db : Database)
  : list LootAttribute :=
  merge_sort byAttributeKindId
    (filter (λ a, notDeleted current_timestamp (attrDeletedAt a))
       (filter (λ a, lootId a = lootId') (lootAttribute db))).

(** The keys of the [loot] table, in row order. *)
Definition lootIds (db : Database) : list Z := id <$> loot db.

(** Every attribute row belongs to a row of [loot]. *)
Definition attributesReferToLoot (db : Database) : Prop :=
  ∀ a, a ∈ lootAttribute db → lootId a ∈ lootIds db.

(** [db'] has the rows of [db], possibly updated, under the same keys and
    in the same places, and maybe more. *)
Definition keepsRows (db db' : Database) : Prop :=
  lootIds db `prefix_of` lootIds db'
  ∧ lootAttribute db `prefix_of` lootAttribute db'.

(** What every mutation of the service keeps: the rows, the uniqueness of
    the keys, and the link from attribute rows to loot rows. *)
Definition keepsInvariants (db db' : Database) : Prop :=
  keepsRows db db'
  ∧ (NoDup (lootIds db) → NoDup (lootIds db'))
  ∧ (attributesReferToLoot db → attributesReferToLoot db').

(** *** Sample data *)

(** The database a call leaves: its result on success, the one it was
    given when it raised. *)
Definition dbAfter {A} (m : M A) (db : Database) : Database :=
  match m db with
  | Ok (_, db') => db'
  | Err _ => db
  end.

Definition emptyDb : Database := mkDatabase [] [].
Definition kebab : LootTemplate :=
  mkLootTemplate 1 10 "Kebab" "Ein Kebab" "Mit alles" None.
Definition selten : LootAttributeTemplate :=
  mkLootAttributeTemplate 2 1 "Selten" "S" None (Some 10).

(** alice wins a kebab with the rarity attribute: loot 1, attribute 1. *)
Definition dropped : Database :=
  dbAfter (createLoot kebab "alice" (Some ("g", "c", "m1")) "2024-05-01T10:00:00.000Z"
             "drop" None (Some selten)) emptyDb.

(** The same with the attribute row soft-deleted at time 50. *)
Definition attributeGone : Database :=
  mkDatabase (loot dropped) [mkLootAttribute 1 1 2 1 "Selten" "S" None (Some 50)].

(** The kebab without any attribute row. *)
Definition plain : Database := mkDatabase (loot dropped) [].

(** The kebab with two attributes, entered in either order. *)
Definition glanz : LootAttribute := mkLootAttribute 2 1 5 1 "Glanz" "G" None None.
Definition twoAttributes : Database :=
  mkDatabase (loot dropped) (lootAttribute dropped ++ [glanz]).
Definition twoAttributesSwapped : Database :=
  mkDatabase (loot dropped) (glanz :: lootAttribute dropped).

(** The kebab replaced at time 100 by a döner that expires at time 500:
    loot 2. *)
Definition expiring : Database :=
  dbAfter (replaceLoot 100 1
             (mkLoot None "Döner" "Mit scharf" 2 None "alice" "2024-05-02T10:00:00.000Z"
                "g" "c" "m1" "replacement" None (Some 500)) true) dropped.

(** The kebab, used up at time 100. *)
Definition consumed : Database := dbAfter (deleteLoot 100 1) dropped.

End Loot.

(* ===================================================================== *)
(** ** Part III: the nickname command ([Nickname.handleInteraction])     *)
(* ===================================================================== *)

Module NicknameCommand.
Import Nickname.

(** A [GuildMember], as far as the command reads it. *)
Record GuildMember := mkGuildMember {
  memberNickname : option string;
  roles : gset string
}.

(** [guild.members.cache], keyed by member id. *)
Abbreviation Members := (gmap string GuildMember).

(** The slash command as the handler reads it: the subcommand, who sent
    it, the [user] option, the [nickname] option ([add] and [delete] only)
    and, for [add], the id of the reply that carries the buttons. *)
Record CommandInteraction := mkCommandInteraction {
  subcommand : string;
  command_user_id : string;
  option_user_id : string;
  option_nickname : string;
  reply_id : string
}.

(** The calls of the command towards the database and the platform, in
    order; [OfVote] wraps what the creation of a vote does. *)
Inductive CommandEvent :=
| DeleteNickNames (userId : string)
| DeleteNickName (userId nickName : string)
| GetNicknames (userId : string)
| SetNickname (memberId : string) (nickname : option string)
| ConsoleLog
| CommandReply (content : string)
| OfVote (e : Event).

#[global] Instance CommandEvent_eq_dec : EqDecision CommandEvent.
Proof. solve_decision. Defined.

(** A call that writes: to the nickname table or to a member. *)
Definition isWrite (e : CommandEvent) : bool :=
  match e with
  | DeleteNickNames _ | DeleteNickName _ _ | SetNickname _ _
  | OfVote (InsertNickname _ _) => true
  | GetNicknames _ | ConsoleLog | CommandReply _ | OfVote _ => false
  end.

(** A call that answers the command. *)
Definition isReply (e : CommandEvent) : bool :=
  match e with
  | CommandReply _ | OfVote (Reply _ _ _) => true
  | _ => false
  end.

(** [Array.prototype.join] with a separator. *)
Fixpoint join (sep : string) (l : list string) : string :=
  match l with
  | [] => ""
  | [x] => x
  | x :: l' => x +:+ sep +:+ join sep l'
  end.

(** The line feed of a template literal. *)
Definition newline : string := String (Ascii.ascii_of_nat 10) "".

Definition msgRefused : string := "Hurensohn. Der Command ist nix für dich.".
Definition msgNever : string := "Das hätte nie passieren dürfen".

Section Command.

(** [config.ids.trusted_role_id] *)
Variable trusted_role_id : string.

(** [isTrusted] of [utils/userUtils], as for the buttons. *)
Variable isTrusted : string → bool.

(** [Nicknames.deleteNickNames], [Nicknames.deleteNickName] and
    [Nicknames.getNicknames] of [storage/model/Nickname], and
    [GuildMember.setNickname] of the platform; none of them is part of the
    sources at hand.  Each may raise ([None]). *)
Variable deleteNickNames : string → NicknameTable → option NicknameTable.
Variable deleteNickName : string → string → NicknameTable → option NicknameTable.
Variable getNicknames : string → NicknameTable → option (list string).
Variable setNickname : string → option string → Members → option Members.

(** The state with another nickname table. *)
Definition withNicknames (t : NicknameTable) (st : State) : State :=
  mkState (ongoingSuggestions st) (idVoteMap st) t.

(** The [catch] block: log, then the generic reply. *)
Definition caught (st : State) (members : option Members) (evs : list CommandEvent)
  : State * option Members * list CommandEvent :=
  (st, members, evs ++ [ConsoleLog; CommandReply msgNever]).

(** [Nickname.handleInteraction]; [members] is [command.guild?.members.cache],
    [None] without a guild. *)
Definition handleInteraction (command : CommandInteraction) (st : State)
    (members : option Members) : State * option Members * list CommandEvent :=
  let user := option_user_id command in
  match members ≫= (λ ms, ms !! command_user_id command) with
  | None =>
      (* [commandUser.user.id] on [undefined] *)
      caught st members []
  | Some commandUser =>
      let isNotTrusted := negb (bool_decide (trusted_role_id ∈ roles commandUser)) in
      let isDifferentUser := negb (bool_decide (user = command_user_id command)) in
      if decide (subcommand command = "deleteall") then
        if isNotTrusted && isDifferentUser then (st, members, [CommandReply msgRefused])
        else
          match deleteNickNames user (nicknames st) with
          | None => caught st members [DeleteNickNames user]
          | Some t =>
              match members ≫= (λ ms, ms !! user) with
              | None =>
                  (* [user.setNickname] on [undefined] *)
                  caught (withNicknames t st) members [DeleteNickNames user]
              | Some _ =>
                  match members ≫= setNickname user None with
                  | None =>
                      caught (withNicknames t st) members
                        [DeleteNickNames user; SetNickname user None]
                  | Some ms' =>
                      (withNicknames t st, Some ms',
                       [DeleteNickNames user; SetNickname user None;
                        CommandReply "Ok Brudi. Hab alles gelöscht"])
                  end
              end
          end
      else if decide (subcommand command = "list") then
        match getNicknames user (nicknames st) with
        | None => caught st members [GetNicknames user]
        | Some [] =>
            (st, members,
             [GetNicknames user; CommandReply "Ne Brudi für den hab ich keine Nicknames"])
        | Some names =>
            (st, members,
             [GetNicknames user;
              CommandReply ("Hab für den Brudi folgende Nicknames:" +:+ newline
                              +:+ join ", " names)])
        end
      else if decide (subcommand command = "add") then
        (* the calls of [handleAdd]: the table lookup is taken not to raise,
           and [command.fetchReply()], made after the reply, is not listed *)
        let '(st', evs) :=
          handleAdd isTrusted (negb isNotTrusted) (reply_id command) user
            (option_nickname command) st in
        (st', members, OfVote <$> evs)
      else if decide (subcommand command = "delete") then
        if isNotTrusted && isDifferentUser then (st, members, [CommandReply msgRefused])
        else
          let nickname := option_nickname command in
          match deleteNickName user nickname (nicknames st) with
          | None => caught st members [DeleteNickName user nickname]
          | Some t =>
              match members ≫= (λ ms, ms !! user) with
              | None =>
                  (* [member.nickname] on [undefined] *)
                  caught (withNicknames t st) members [DeleteNickName user nickname]
              | Some member =>
                  let done :=
                    CommandReply ("Ok Brudi. Hab für <@" +:+ user +:+ "> " +:+ nickname
                                    +:+ " gelöscht") in
                  if decide (memberNickname member = Some nickname) then
                    match members ≫= setNickname user None with
                    | None =>
                        caught (withNicknames t st) members
                          [DeleteNickName user nickname; SetNickname user None]
                    | Some ms' =>
                        (withNicknames t st, Some ms',
                         [DeleteNickName user nickname; SetNickname user None; done])
                    end
                  else (withNicknames t st, members, [DeleteNickName user nickname; done])
              end
          end
      else (st, members, [CommandReply msgNever])
  end.

End Command.

(** *** Sample data *)

(** A table behind the three calls that never raises, and a platform that
    lets every nickname be set. *)
Definition sampleDeleteNickNames (u : string) (t : NicknameTable) : option NicknameTable :=
  Some (filter (λ row, row.1 ≠ u) t).
Definition sampleDeleteNickName (u n : string) (t : NicknameTable) : option NicknameTable :=
  Some (filter (λ row, row ≠ (u, n)) t).
Definition sampleGetNicknames (u : string) (t : NicknameTable) : option (list string) :=
  Some ((filter (λ row, row.1 = u) t).*2).
Definition sampleSetNickname (u : string) (n : option string) (ms : Members)
  : option Members :=
  Some (alter (λ m, mkGuildMember n (roles m)) u ms).

(** alice has the trusted role, bob has not; carl is not in the cache. *)
Definition sampleMembers : Members :=
  {[ "alice" := mkGuildMember None {[ "trusted" ]};
     "bob" := mkGuildMember (Some "Bobby") ∅ ]}.
Definition withRows : State := mkState ∅ ∅ [("bob", "Bobby"); ("carl", "Calle")].
Definition sampleCommand (sub who target nick : string) : CommandInteraction :=
  mkCommandInteraction sub who target nick "m1".
Definition sampleRun (c : CommandInteraction) (st : State) (ms : option Members)
  : State * option Members * list CommandEvent :=
  handleInteraction "trusted" everyoneTrusted sampleDeleteNickNames sampleDeleteNickName
    sampleGetNicknames sampleSetNickname c st ms.

End NicknameCommand.

(* ===================================================================== *)
(** ** Part IV: the toggle command ([src/commands/toggle.ts])            *)
(* ===================================================================== *)

Module Toggle.

(** [APIEmbedField]; [inline] is optional. *)
Record APIEmbedField := mkField {
  name : string;
  value : string;
  inline : option bool
}.

(** An embed, as far as the command reads and writes it: the name of the
    author (null without author), the colour (a number or null), the fields
    and the url of the thumbnail. *)
Record Embed := mkEmbed {
  author : option string;
  color : option Z;
  fields : list APIEmbedField;
  thumbnail : option string
}.

#[global] Instance APIEmbedField_eq_dec : EqDecision APIEmbedField.
Proof. solve_decision. Defined.
#[global] Instance Embed_eq_dec : EqDecision Embed.
Proof. solve_decision. Defined.

(** A message of a channel: its embeds. *)
Record Message := mkMessage { embeds : list Embed }.

(** The options of [message.edit]. *)
Record Edit := mkEdit {
  edit_embeds : list Embed;
  edit_files : list string
}.

(** What a toggle comes to: a text it returns, an edit of the message, or
    the [TypeError] of reading a property of [undefined]. *)
Inductive Toggled :=
| Answer (text : string)
| Edited (e : Edit)
| TypeError.

(** [extendColor] of [togglePoll] and the two colours of [toggleSdm]. *)
Definition extendColor : Z := 3066993.
Definition yesColor : Z := 0x2ecc71.
Definition noColor : Z := 0xe74c3c.

(** [EmbedBuilder.from(embed).setColor(c)] *)
Definition setColor (c : option Z) (e : Embed) : Embed :=
  mkEmbed (author e) c (fields e) (thumbnail e).

(** [.setThumbnail(url)] *)
Definition setThumbnail (url : string) (e : Embed) : Embed :=
  mkEmbed (author e) (color e) (fields e) (Some url).

Section Poll.

(** [poll.LETTERS] and [poll.OPTION_LIMIT] of [commands/poll], which is
    not part of the sources at hand. *)
Variable LETTERS : list string.
Variable OPTION_LIMIT : nat.

(** [isPollField]: [!field.inline && LETTERS.some(l => field.name.startsWith(l))] *)
Definition isPollField (field : APIEmbedField) : bool :=
  negb (default false (inline field))
  && existsb (λ l, String.prefix l (name field)) LETTERS.

(** [togglePoll] *)
Definition togglePoll (message : Message) : Toggled :=
  match embeds message with
  | [] => TypeError
  | pollEmbed :: _ =>
      let pollOptions := List.filter isPollField (fields pollEmbed) in
      let isFull := bool_decide (length pollOptions = OPTION_LIMIT) in
      if isFull then Answer "Bruder die ist eh schon voll :<"
      else
        let isExtensible := negb (bool_decide (color pollEmbed = Some extendColor)) in
        let colorToUse := if isExtensible then Some extendColor else None in
        Edited (mkEdit [setColor colorToUse pollEmbed] [])
  end.

(** [toggleSdm] *)
Definition toggleSdm (message : Message) : Toggled :=
  match embeds message with
  | [] => TypeError
  | embed :: _ =>
      let isYes := bool_decide (color embed = Some yesColor) in
      let file := if isYes then "no.png" else "yes.png" in
      Edited (mkEdit
                [setThumbnail ("attachment://" +:+ file)
                   (setColor (Some (if isYes then noColor else yesColor)) embed)]
                ["./assets/" +:+ file])
  end.

(** The message once the edit of a toggle is through: its embeds are the
    ones of the edit; without an edit it is as it was. *)
Definition afterToggle (t : Toggled) (message : Message) : Message :=
  match t with
  | Edited e => mkMessage (edit_embeds e)
  | Answer _ | TypeError => message
  end.

(** [message.reference] *)
Record MessageReference := mkReference {
  channelId : string;
  messageId : option string
}.

(** A channel of [context.guild.channels.cache]: whether it is text based
    and the messages [channel.messages.fetch] finds in it. *)
Record Channel := mkChannel {
  isTextBased : bool;
  messages : gmap string Message
}.

(** What [run] has done when it returns: the text it returns (if any),
    the edit it made of the referenced message (if any) and whether it
    deleted the command message. *)
Record Ran := mkRan {
  returned : option string;
  edited : option Edit;
  deleted : bool
}.

(** [run] either returns or rejects. *)
Inductive RunResult :=
| Returns (r : Ran)
| Rejects.

Definition nothing : Ran := mkRan None None false.
Definition answer (text : string) : Ran := mkRan (Some text) None false.

(** [await Promise.all([toggle(replyMessage), message.delete()]); return;]
    The text a toggle returns is dropped. *)
Definition toggleAndDelete (t : Toggled) : RunResult :=
  match t with
  | Answer _ => Returns (mkRan None None true)
  | Edited e => Returns (mkRan None (Some e) true)
  | TypeError => Rejects
  end.

(** [run]; [isMod] is [isMod(message.member)] of [utils/userUtils],
    [reference] is [message.reference], [channels] is
    [context.guild.channels.cache]. *)
Definition run (isMod : bool) (reference : option MessageReference)
    (channels : gmap string Channel) : RunResult :=
  if negb isMod then Returns nothing
  else
    match reference with
    | None => Returns (answer "Bruder schon mal was von der Replyfunktion gehört?")
    | Some ref =>
        match messageId ref with
        | None => Returns (answer "Bruder schon mal was von der Replyfunktion gehört?")
        | Some referenceMessageId =>
            if decide (referenceMessageId = "") then
              Returns (answer "Bruder schon mal was von der Replyfunktion gehört?")
            else
              match channels !! channelId ref with
              | None => Returns nothing
              | Some channel =>
                  if negb (isTextBased channel) then Returns nothing
                  else
                    match messages channel !! referenceMessageId with
                    | None => Rejects
                    | Some replyMessage =>
                        match embeds replyMessage with
                        | [] => Rejects
                        | pollEmbed :: _ =>
                            match author pollEmbed with
                            | None => Returns (answer "Irgendwie ist der Poll kaputt")
                            | Some pollAuthorName =>
                                let isPoll :=
                                  String.prefix "Umfrage" pollAuthorName
                                  || String.prefix "Strawpoll" pollAuthorName in
                                let isSdm := String.prefix "Secure Decision" pollAuthorName in
                                if isPoll then toggleAndDelete (togglePoll replyMessage)
                                else if isSdm then toggleAndDelete (toggleSdm replyMessage)
                                else Returns (answer "Bruder da ist nichts was ich manipulieren kann")
                            end
                        end
                    end
              end
        end
    end.

End Poll.

(** *** Sample data *)

Definition sdmYes : Embed :=
  mkEmbed (Some "Secure Decision") (Some yesColor) [] (Some "attachment://yes.png").
Definition umfrage : Embed :=
  mkEmbed (Some "Umfrage von alice") None
    [mkField "A" "Kebab" None; mkField "B" "Döner" None] None.
Definition channelsOf (e : Embed) : gmap string Channel :=
  {[ "c" := mkChannel true {[ "m" := mkMessage [e] ]} ]}.
Definition inReplyTo : option MessageReference := Some (mkReference "c" (Some "m")).

End Toggle.

(* ===================================================================== *)
(** ** Properties of the nickname vote                                   *)
(* ===================================================================== *)

Module NicknameFacts.
Import Nickname.

(** *** The handlers on sample input *)

Example press_on_unknown_message :
  handleInteraction everyoneTrusted (pressYes "alice") boot
  = (boot, [Update msgNotFound (Some [])]).
Proof. reflexivity. Qed.

Example press_by_untrusted_member :
  (handleInteraction guestTarget (pressNo "target") proposed).2
  = [Reply msgNotCool None true]
  ∧ votesOf "m1" (handleInteraction guestTarget (pressNo "target") proposed).1
    = votesOf "m1" proposed.
Proof. split; vm_compute; reflexivity. Qed.

Example add_without_trusted_role :
  handleAdd everyoneTrusted false "m1" "target" "Brudi" boot
  = (boot, [Reply "Hurensohn. Der Command ist nix für dich." None false]).
Proof. reflexivity. Qed.

Example untrusted_target_and_two_trusted_yes :
  let st0 := (handleAdd guestTarget true "m1" "target" "Brudi" boot).1 in
  let st1 := (handleInteraction guestTarget (pressYes "alice") st0).1 in
  weightOf YES (Object_values (votesOf "m1" st0)) = 1
  ∧ (handleInteraction guestTarget (pressYes "alice") st0).2 = [Reply msgVoted None true]
  ∧ accepted brudi (handleInteraction guestTarget (pressYes "bob") st1).2.
Proof. split_and!; vm_compute; reflexivity. Qed.

(** *** The tally *)

Lemma foldl_weight_acc (l : list UserVote) (a : Z) :
  foldl (λ sum uservote, sum + getWeightOfUserVote uservote) a l
  = a + foldl (λ sum uservote, sum + getWeightOfUserVote uservote) 0 l.
Proof.
  revert a. induction l as [|v l IH]; intros a; simpl; [lia|].
  rewrite (IH (a + _)), (IH (0 + _)). lia.
Qed.

Lemma weightOf_nil which : weightOf which [] = 0.
Proof. reflexivity. Qed.

Lemma weightOf_cons which v l :
  weightOf which (v :: l) = contribution which v + weightOf which l.
Proof.
  unfold weightOf, contribution. rewrite filter_cons.
  destruct (decide (vote v = which)); simpl; [|lia].
  rewrite foldl_weight_acc. lia.
Qed.

Lemma weightOf_Permutation which l1 l2 :
  l1 ≡ₚ l2 → weightOf which l1 = weightOf which l2.
Proof.
  induction 1; rewrite ?weightOf_cons; lia.
Qed.

Lemma Object_values_empty : Object_values ∅ = [].
Proof. unfold Object_values. by rewrite map_to_list_empty. Qed.

Lemma Object_values_insert_fresh k v (m : gmap string UserVote) :
  m !! k = None → Object_values (<[k:=v]> m) ≡ₚ v :: Object_values m.
Proof.
  intros H. unfold Object_values. by rewrite map_to_list_insert.
Qed.

Lemma weightOf_insert_fresh which k v (m : gmap string UserVote) :
  m !! k = None →
  weightOf which (Object_values (<[k:=v]> m))
  = contribution which v + weightOf which (Object_values m).
Proof.
  intros H. rewrite (weightOf_Permutation _ _ _ (Object_values_insert_fresh k v m H)).
  apply weightOf_cons.
Qed.

(** Overwriting a slot: the old vote of [k] leaves the sum, the new one
    enters it. *)
Lemma weightOf_insert which k v (m : gmap string UserVote) :
  weightOf which (Object_values (<[k:=v]> m))
  = contribution which v + weightOf which (Object_values (delete k m)).
Proof.
  rewrite <- insert_delete_eq. apply weightOf_insert_fresh, lookup_delete_eq.
Qed.

Lemma countVoters_empty which t : countVoters which t ∅ = 0.
Proof. unfold countVoters. by rewrite map_filter_empty, map_size_empty. Qed.

Lemma countVoters_insert_fresh which t k v (m : gmap string UserVote) :
  m !! k = None →
  countVoters which t (<[k:=v]> m)
  = (if decide (vote v = which ∧ trusted v = t) then 1 else 0) + countVoters which t m.
Proof.
  intros H. unfold countVoters. destruct (decide _) as [Hv|Hv].
  - rewrite map_filter_insert_True by done.
    rewrite map_size_insert_None by (by rewrite map_lookup_filter_None; left). lia.
  - rewrite map_filter_insert_not' by (done || (intros y; congruence)). lia.
Qed.

(** The sum the handler computes is the tally of the specification. *)
Lemma weightOf_summedWeight which (m : gmap string UserVote) :
  weightOf which (Object_values m) = summedWeight which m.
Proof.
  unfold summedWeight. induction m as [|k v m Hk IH] using map_ind.
  - by rewrite Object_values_empty, !countVoters_empty.
  - rewrite weightOf_insert_fresh, !countVoters_insert_fresh, IH by done.
    unfold contribution, getWeightOfUserVote.
    destruct v as [[] []], which; cbn;
      repeat (destruct (decide _) as [?|?]); first [lia | exfalso; intuition congruence].
Qed.

(** *** The state after the steps of the handler *)

Lemma getUserVoteMap_votesOf mid st :
  votesOf mid (getUserVoteMap mid st).1 = votesOf mid st.
Proof.
  unfold getUserVoteMap, votesOf.
  destruct (idVoteMap st !! mid) eqn:E; simpl; [by rewrite E|].
  by rewrite lookup_insert_eq.
Qed.

Lemma getUserVoteMap_suggestions mid st :
  ongoingSuggestions (getUserVoteMap mid st).1 = ongoingSuggestions st.
Proof. unfold getUserVoteMap. by destruct (idVoteMap st !! mid). Qed.

Lemma getUserVoteMap_nicknames mid st :
  nicknames (getUserVoteMap mid st).1 = nicknames st.
Proof. unfold getUserVoteMap. by destruct (idVoteMap st !! mid). Qed.

Lemma getUserVoteMap_present mid st :
  is_Some (idVoteMap (getUserVoteMap mid st).1 !! mid).
Proof.
  unfold getUserVoteMap. destruct (idVoteMap st !! mid) eqn:E; simpl.
  - by rewrite E.
  - by rewrite lookup_insert_eq.
Qed.

Lemma setUserVote_votesOf mid k v st :
  votesOf mid (setUserVote mid k v st) = <[k:=v]> (votesOf mid st).
Proof. unfold votesOf, setUserVote; simpl. by rewrite lookup_insert_eq. Qed.

Lemma recordVote_votesOf i b st :
  votesOf (message_id i) (recordVote i b st) = recorded i b (votesOf (message_id i) st).
Proof.
  unfold recordVote, recorded. repeat case_decide; by rewrite ?setUserVote_votesOf.
Qed.

Lemma recordVote_suggestions i b st :
  ongoingSuggestions (recordVote i b st) = ongoingSuggestions st.
Proof. unfold recordVote. by repeat case_decide. Qed.

Lemma recordVote_nicknames i b st :
  nicknames (recordVote i b st) = nicknames st.
Proof. unfold recordVote. by repeat case_decide. Qed.

Lemma recordVote_present i b st :
  is_Some (idVoteMap st !! message_id i) →
  is_Some (idVoteMap (recordVote i b st) !! message_id i).
Proof.
  intros H. unfold recordVote, setUserVote.
  repeat case_decide; simpl; by rewrite ?lookup_insert_eq.
Qed.

(** *** The handler on a counted vote *)

(** A press on a known suggestion by a trusted member: the vote map after
    the press and the branch taken, by the two sums over that map. *)
Lemma handleInteraction_counted (isTrusted : string → bool) i st s :
  ongoingSuggestions st !! message_id i = Some s →
  isTrusted (user_id i) = true →
  let m' := recorded i true (votesOf (message_id i) st) in
  let r := handleInteraction isTrusted i st in
  votesOf (message_id i) r.1 = m'
  ∧ ongoingSuggestions r.1 = ongoingSuggestions st
  ∧ is_Some (idVoteMap r.1 !! message_id i)
  ∧ (if decide (threshold ≤ weightOf NO (Object_values m')) then
       rejected s r.2 ∧ nicknames r.1 = nicknames st
     else if decide (threshold ≤ weightOf YES (Object_values m')) then
       if nickNameExist (nicknameUserID s) (nickname s) (nicknames st) then
         conflict s r.2 ∧ nicknames r.1 = nicknames st
       else
         accepted s r.2
         ∧ nicknames r.1 = nicknames st ++ [(nicknameUserID s, nickname s)]
     else acknowledged r.2 ∧ nicknames r.1 = nicknames st).
Proof.
  intros Hs Ht m' r. subst r. unfold handleInteraction. rewrite Hs.
  pose proof (getUserVoteMap_votesOf (message_id i) st) as Hv.
  pose proof (getUserVoteMap_suggestions (message_id i) st) as Ho.
  pose proof (getUserVoteMap_nicknames (message_id i) st) as Hn.
  pose proof (getUserVoteMap_present (message_id i) st) as Hp.
  destruct (getUserVoteMap (message_id i) st) as [st1 m0]; simpl in Hv, Ho, Hn, Hp.
  rewrite Ht; simpl.
  pose proof (recordVote_votesOf i true st1) as Hv2. rewrite Hv in Hv2. fold m' in Hv2.
  pose proof (recordVote_suggestions i true st1) as Ho2.
  pose proof (recordVote_nicknames i true st1) as Hn2.
  pose proof (recordVote_present i true st1 Hp) as Hp2.
  rewrite Hv2. unfold insertNickname. rewrite Hn2, Hn.
  repeat case_decide; [| destruct (nickNameExist _ _ _) |]; simpl;
    unfold rejected, accepted, conflict, acknowledged, votesOf in *; simpl;
    repeat split; congruence.
Qed.

Lemma weightOf_three which (a b c : string) (va vb vc : UserVote) :
  a ≠ b → a ≠ c → b ≠ c →
  weightOf which (Object_values (<[a:=va]> (<[b:=vb]> {[c:=vc]})))
  = contribution which va + contribution which vb + contribution which vc.
Proof.
  intros Hab Hac Hbc.
  rewrite weightOf_insert_fresh
    by (by rewrite lookup_insert_ne, lookup_singleton_ne).
  rewrite weightOf_insert_fresh by (by rewrite lookup_singleton_ne).
  rewrite <- insert_empty, weightOf_insert_fresh by apply lookup_empty.
  rewrite Object_values_empty, weightOf_nil. lia.
Qed.

Lemma weightOf_single which (k : string) (v : UserVote) :
  weightOf which (Object_values {[k:=v]}) = contribution which v.
Proof.
  rewrite <- insert_empty, weightOf_insert_fresh by apply lookup_empty.
  rewrite Object_values_empty, weightOf_nil. lia.
Qed.

Lemma nickNameExist_true u n t : nickNameExist u n t = true ↔ (u, n) ∈ t.
Proof. unfold nickNameExist. by rewrite bool_decide_eq_true. Qed.

Lemma nickNameExist_false u n t : nickNameExist u n t = false ↔ (u, n) ∉ t.
Proof. unfold nickNameExist. by rewrite bool_decide_eq_false. Qed.

(** C1: on a press by a trusted member on a known suggestion the handler
    sums, over the whole vote map as it stands after the press, 2 per
    trusted and 1 per untrusted voter on each side.  With the "no" sum at 5
    or more the suggestion is rejected and nothing is persisted; otherwise,
    with the "yes" sum at 5 or more, the nickname is in the table afterwards
    (inserted by this call unless it was there already); otherwise the vote
    is acknowledged only.  Three trusted "yes" votes weigh 6 and accept,
    three trusted "no" votes weigh 6 and reject, and one untrusted vote
    alone stays below the threshold on either side. *)
Theorem vote_tally_decides (isTrusted : string → bool) i st s :
  ongoingSuggestions st !! message_id i = Some s →
  isTrusted (user_id i) = true →
  let r := handleInteraction isTrusted i st in
  let votes := votesOf (message_id i) r.1 in
  let no := weightOf NO (Object_values votes) in
  let yes := weightOf YES (Object_values votes) in
  let row := (nicknameUserID s, nickname s) in
  no = 2 * countVoters NO true votes + 1 * countVoters NO false votes
  ∧ yes = 2 * countVoters YES true votes + 1 * countVoters YES false votes
  ∧ (5 ≤ no → rejected s r.2 ∧ nicknames r.1 = nicknames st)
  ∧ (no < 5 → 5 ≤ yes →
       (accepted s r.2 ∨ conflict s r.2)
       ∧ row ∈ nicknames r.1
       ∧ (row ∉ nicknames st → accepted s r.2 ∧ nicknames r.1 = nicknames st ++ [row]))
  ∧ (no < 5 → yes < 5 → acknowledged r.2 ∧ nicknames r.1 = nicknames st)
  ∧ (∀ a b c, a ≠ b → a ≠ c → b ≠ c →
       votes = <[a:=mkUserVote YES true]> (<[b:=mkUserVote YES true]> {[c:=mkUserVote YES true]}) →
       yes = 6 ∧ no = 0 ∧ (accepted s r.2 ∨ conflict s r.2) ∧ row ∈ nicknames r.1)
  ∧ (∀ a b c, a ≠ b → a ≠ c → b ≠ c →
       votes = <[a:=mkUserVote NO true]> (<[b:=mkUserVote NO true]> {[c:=mkUserVote NO true]}) →
       no = 6 ∧ rejected s r.2 ∧ nicknames r.1 = nicknames st)
  ∧ (∀ k v which, trusted v = false →
       weightOf which (Object_values {[k:=v]}) < threshold).
Proof.
  intros Hs Ht r votes no yes row.
  destruct (handleInteraction_counted isTrusted i st s Hs Ht) as (Hv & _ & _ & Hb).
  fold r in Hv, Hb. rewrite <- Hv in Hb. fold votes no yes in Hb.
  unfold threshold in Hb.
  assert (Eno : no = weightOf NO (Object_values votes)) by reflexivity.
  assert (Eyes : yes = weightOf YES (Object_values votes)) by reflexivity.
  clearbody no yes. clear Hv. clearbody votes r. subst row.
  assert (Hno : 5 ≤ no → rejected s r.2 ∧ nicknames r.1 = nicknames st).
  { intros H. destruct (decide (5 ≤ no)); [exact Hb | contradiction]. }
  assert (Hyes : no < 5 → 5 ≤ yes →
       (accepted s r.2 ∨ conflict s r.2)
       ∧ (nicknameUserID s, nickname s) ∈ nicknames r.1
       ∧ ((nicknameUserID s, nickname s) ∉ nicknames st →
          accepted s r.2
          ∧ nicknames r.1 = nicknames st ++ [(nicknameUserID s, nickname s)])).
  { intros H1 H2.
    destruct (decide (5 ≤ no)); [lia|]. destruct (decide (5 ≤ yes)); [|lia].
    destruct (nickNameExist _ _ _) eqn:E; destruct Hb as [He Hn].
    - apply nickNameExist_true in E. rewrite Hn. split_and!; [by right|done|done].
    - rewrite Hn. split_and!; [by left| |done].
      rewrite elem_of_app, list_elem_of_singleton. by right. }
  split_and!.
  - rewrite Eno. apply weightOf_summedWeight.
  - rewrite Eyes. apply weightOf_summedWeight.
  - exact Hno.
  - exact Hyes.
  - intros H1 H2.
    destruct (decide (5 ≤ no)); [lia|]. destruct (decide (5 ≤ yes)); [lia|]. exact Hb.
  - intros a b c Hab Hac Hbc Hm.
    rewrite Hm, weightOf_three in Eno, Eyes by done. vm_compute in Eno, Eyes.
    specialize (Hyes ltac:(lia) ltac:(lia)). destruct Hyes as (? & ? & _). by split_and!.
  - intros a b c Hab Hac Hbc Hm.
    rewrite Hm, weightOf_three in Eno by done. vm_compute in Eno.
    specialize (Hno ltac:(lia)). destruct Hno as [? ?]. by split_and!.
  - intros k v which Hv'. rewrite weightOf_single.
    unfold contribution, getWeightOfUserVote, threshold.
    rewrite Hv'. destruct (decide (vote v = which)); lia.
Qed.

(** At the sample run: target, alice and bob, all trusted, in favour. *)
Lemma vote_tally_decides_witness :
  ongoingSuggestions afterAlice !! "m1" = Some brudi
  ∧ everyoneTrusted "bob" = true
  ∧ accepted brudi (handleInteraction everyoneTrusted (pressYes "bob") afterAlice).2
  ∧ nicknames (handleInteraction everyoneTrusted (pressYes "bob") afterAlice).1
    = [("target", "Brudi")].
Proof.
  assert (H1 : ongoingSuggestions afterAlice !! message_id (pressYes "bob") = Some brudi)
    by (vm_compute; reflexivity).
  assert (H2 : everyoneTrusted (user_id (pressYes "bob")) = true) by reflexivity.
  split; [exact H1|]. split; [exact H2|].
  destruct (vote_tally_decides everyoneTrusted (pressYes "bob") afterAlice brudi H1 H2)
    as (_ & _ & _ & H & _).
  destruct H as (_ & _ & H); [by vm_compute | by vm_compute |].
  apply H. apply nickNameExist_false. vm_compute; reflexivity.
Defined.

(** *** One slot per voter *)

Lemma recorded_buttonVote i b (m : gmap string UserVote) :
  recorded i b m
  = match buttonVote (customId i) with
    | Some v => <[user_id i := mkUserVote v b]> m
    | None => m
    end.
Proof. unfold recorded, buttonVote. by repeat case_decide. Qed.

(** C6: a counted press stores the vote in the voter's slot of the map of
    the suggestion, in place of whatever the slot held, and leaves the other
    slots alone; the sums count the new vote and nothing of the old one.  Of
    two presses of one voter only the second is in the map: after "yes" then
    "no" the voter adds 2 to the "no" sum and nothing to the "yes" sum. *)
Theorem later_vote_overwrites (isTrusted1 isTrusted2 : string → bool)
    mid uid c1 c2 v1 v2 st s :
  ongoingSuggestions st !! mid = Some s →
  isTrusted1 uid = true →
  isTrusted2 uid = true →
  buttonVote c1 = Some v1 →
  buttonVote c2 = Some v2 →
  let before := votesOf mid st in
  let st1 := (handleInteraction isTrusted1 (mkInteraction mid uid c1) st).1 in
  let st2 := (handleInteraction isTrusted2 (mkInteraction mid uid c2) st1).1 in
  votesOf mid st1 = <[uid := mkUserVote v1 true]> before
  ∧ votesOf mid st1 !! uid = Some (mkUserVote v1 true)
  ∧ (∀ u, u ≠ uid → votesOf mid st1 !! u = before !! u)
  ∧ (∀ which, weightOf which (Object_values (votesOf mid st1))
       = contribution which (mkUserVote v1 true)
         + weightOf which (Object_values (delete uid before)))
  ∧ votesOf mid st2 = <[uid := mkUserVote v2 true]> before
  ∧ votesOf mid st2 !! uid = Some (mkUserVote v2 true)
  ∧ (∀ which, weightOf which (Object_values (votesOf mid st2))
       = contribution which (mkUserVote v2 true)
         + weightOf which (Object_values (delete uid before)))
  ∧ (v1 = YES → v2 = NO →
       weightOf YES (Object_values (votesOf mid st2))
       = weightOf YES (Object_values (delete uid before))
       ∧ weightOf NO (Object_values (votesOf mid st2))
         = 2 + weightOf NO (Object_values (delete uid before))).
Proof.
  intros Hs Ht1 Ht2 Hc1 Hc2 before st1 st2.
  destruct (handleInteraction_counted isTrusted1 (mkInteraction mid uid c1) st s Hs Ht1)
    as (Hv1 & Ho1 & _). simpl in Hv1, Ho1. fold st1 in Hv1, Ho1.
  rewrite recorded_buttonVote in Hv1. simpl in Hv1. rewrite Hc1 in Hv1. fold before in Hv1.
  assert (Hs1 : ongoingSuggestions st1 !! mid = Some s) by (by rewrite Ho1).
  destruct (handleInteraction_counted isTrusted2 (mkInteraction mid uid c2) st1 s Hs1 Ht2)
    as (Hv2 & _). simpl in Hv2. fold st2 in Hv2.
  rewrite recorded_buttonVote in Hv2. simpl in Hv2.
  rewrite Hc2, Hv1, insert_insert_eq in Hv2.
  clearbody st1 st2 before.
  assert (Hw : ∀ which, weightOf which (Object_values (votesOf mid st2))
       = contribution which (mkUserVote v2 true)
         + weightOf which (Object_values (delete uid before)))
    by (intros which; rewrite Hv2; apply weightOf_insert).
  split_and!.
  - exact Hv1.
  - rewrite Hv1. apply lookup_insert_eq.
  - intros u Hu. rewrite Hv1. by apply lookup_insert_ne.
  - intros which. rewrite Hv1. apply weightOf_insert.
  - exact Hv2.
  - rewrite Hv2. apply lookup_insert_eq.
  - exact Hw.
  - intros -> ->. rewrite !Hw. split; reflexivity.
Qed.

(** The target, entered with "yes" by the proposal, presses "yes" again
    and then "no": only the "no" is counted. *)
Lemma later_vote_overwrites_witness :
  ongoingSuggestions proposed !! "m1" = Some brudi
  ∧ everyoneTrusted "target" = true
  ∧ buttonVote "nicknameVoteYes" = Some YES
  ∧ buttonVote "nicknameVoteNo" = Some NO
  ∧ votesOf "m1" (handleInteraction everyoneTrusted (pressNo "target")
                    (handleInteraction everyoneTrusted (pressYes "target") proposed).1).1
    !! "target" = Some (mkUserVote NO true).
Proof.
  assert (H1 : ongoingSuggestions proposed !! "m1" = Some brudi) by (vm_compute; reflexivity).
  split_and!; [exact H1|reflexivity..|].
  apply (later_vote_overwrites everyoneTrusted everyoneTrusted "m1" "target"
           "nicknameVoteYes" "nicknameVoteNo" YES NO proposed brudi H1
           eq_refl eq_refl eq_refl eq_refl).
Defined.

(** *** Conflict at persist time *)

(** C7: when the "yes" sum decides and the insert of the nickname raises
    on the uniqueness of the row, the handler returns all the same: it has
    called the insert once, answers with the message that the nickname
    exists already, leaves the buttons on the message, does not announce the
    nickname as accepted and leaves the table as it was. *)
Theorem persist_conflict_is_reported (isTrusted : string → bool) i st s :
  ongoingSuggestions st !! message_id i = Some s →
  isTrusted (user_id i) = true →
  let r := handleInteraction isTrusted i st in
  let votes := votesOf (message_id i) r.1 in
  weightOf NO (Object_values votes) < threshold →
  threshold ≤ weightOf YES (Object_values votes) →
  insertNickname (nicknameUserID s) (nickname s) (nicknames st) = None →
  r.2 = [InsertNickname (nicknameUserID s) (nickname s); Update (msgExists s) None]
  ∧ length (filter (λ e, e = InsertNickname (nicknameUserID s) (nickname s)) r.2) = 1%nat
  ∧ (¬ accepted s r.2)
  ∧ (Update (msgAccepted s) (Some []) ∉ r.2)
  ∧ nicknames r.1 = nicknames st
  ∧ ongoingSuggestions r.1 !! message_id i = Some s.
Proof.
  intros Hs Ht r votes Hno Hyes Hins.
  destruct (handleInteraction_counted isTrusted i st s Hs Ht) as (Hv & Ho & _ & Hb).
  fold r in Hv, Ho, Hb. rewrite <- Hv in Hb. fold votes in Hb.
  rewrite decide_False, decide_True in Hb by (done || lia).
  unfold insertNickname in Hins.
  destruct (nickNameExist _ _ _); [|discriminate].
  destruct Hb as [Hc Hn]. unfold conflict in Hc.
  clearbody r. destruct r as [st' evs]; simpl in *. subst evs.
  split_and!; [done| |by unfold accepted| |done|by rewrite Ho].
  - rewrite filter_cons_True, filter_cons_False, filter_nil by done. reflexivity.
  - rewrite !elem_of_cons, elem_of_nil. by intros [?|[?|[]]].
Qed.

(** Bob's deciding "yes" when the row is in the table already. *)
Lemma persist_conflict_is_reported_witness :
  ongoingSuggestions afterAliceTaken !! "m1" = Some brudi
  ∧ everyoneTrusted "bob" = true
  ∧ insertNickname "target" "Brudi" (nicknames afterAliceTaken) = None
  ∧ conflict brudi (handleInteraction everyoneTrusted (pressYes "bob") afterAliceTaken).2
  ∧ nicknames (handleInteraction everyoneTrusted (pressYes "bob") afterAliceTaken).1
    = [("target", "Brudi")].
Proof.
  assert (H1 : ongoingSuggestions afterAliceTaken !! message_id (pressYes "bob") = Some brudi)
    by (vm_compute; reflexivity).
  assert (H2 : everyoneTrusted (user_id (pressYes "bob")) = true) by reflexivity.
  assert (H3 : insertNickname (nicknameUserID brudi) (nickname brudi)
                 (nicknames afterAliceTaken) = None) by (vm_compute; reflexivity).
  assert (H4 : weightOf NO (Object_values (votesOf (message_id (pressYes "bob"))
                 (handleInteraction everyoneTrusted (pressYes "bob") afterAliceTaken).1))
               < threshold) by (by vm_compute).
  assert (H5 : threshold ≤ weightOf YES (Object_values (votesOf (message_id (pressYes "bob"))
                 (handleInteraction everyoneTrusted (pressYes "bob") afterAliceTaken).1)))
    by (by vm_compute).
  pose proof (persist_conflict_is_reported everyoneTrusted (pressYes "bob")
                afterAliceTaken brudi H1 H2 H4 H5 H3) as (He & _ & _ & _ & Hn & _).
  split_and!; [exact H1|exact H2|exact H3|exact He|exact Hn].
Defined.

(** *** What a decided vote leaves behind *)

(** The events tell the branch: an announced acceptance means the insert
    went through, an announced rejection that nothing was inserted. *)
Lemma handleInteraction_decided (isTrusted : string → bool) i st s :
  ongoingSuggestions st !! message_id i = Some s →
  isTrusted (user_id i) = true →
  let r := handleInteraction isTrusted i st in
  (accepted s r.2 → nicknames r.1 = nicknames st ++ [(nicknameUserID s, nickname s)])
  ∧ (rejected s r.2 → nicknames r.1 = nicknames st).
Proof.
  intros Hs Ht r.
  destruct (handleInteraction_counted isTrusted i st s Hs Ht) as (_ & _ & _ & Hb).
  fold r in Hb. clearbody r. destruct r as [st' evs]; simpl in *.
  unfold accepted, rejected, conflict, acknowledged in *.
  repeat case_decide; [|destruct (nickNameExist _ _ _)|];
    destruct Hb as [-> ->]; split; intros Hev; (done || discriminate Hev).
Qed.

Lemma votesOf_Some_present mid st u v :
  votesOf mid st !! u = Some v → idVoteMap st !! mid ≠ None.
Proof. unfold votesOf. intros H E. by rewrite E in H. Qed.

(** C3, refuted as stated: bob's "yes" decides the sample vote and the
    nickname is announced, a third "no" decides the other sample vote, and
    in both states after the decision the suggestion and its vote map are
    still in [ongoingSuggestions] and [idVoteMap]. *)
Lemma decided_vote_entries_remain :
  let acc := handleInteraction everyoneTrusted (pressYes "bob") afterAlice in
  let rej := handleInteraction everyoneTrusted (pressNo "carl") afterBobNo in
  (accepted brudi acc.2
   ∧ ongoingSuggestions acc.1 !! "m1" = Some brudi
   ∧ idVoteMap acc.1 !! "m1" ≠ None)
  ∧ (rejected brudi rej.2
     ∧ ongoingSuggestions rej.1 !! "m1" = Some brudi
     ∧ idVoteMap rej.1 !! "m1" ≠ None).
Proof.
  intros acc rej. subst acc rej.
  split_and!;
    try (vm_compute; reflexivity);
    apply (votesOf_Some_present _ _ "target" (mkUserVote YES true));
    vm_compute; reflexivity.
Qed.

(** C3, as the code has it: a press that decides the vote (nickname
    announced or suggestion turned down) deletes nothing.  The suggestion
    stays in [ongoingSuggestions], which the handler never writes, and the
    vote map of the message stays in [idVoteMap] with the deciding vote in
    it; the messages sent take the buttons off instead.  Acceptance has
    added the nickname to the table, rejection has left the table as it
    was. *)
Theorem decided_vote_keeps_entries (isTrusted : string → bool) i st s :
  ongoingSuggestions st !! message_id i = Some s →
  isTrusted (user_id i) = true →
  let r := handleInteraction isTrusted i st in
  accepted s r.2 ∨ rejected s r.2 →
  ongoingSuggestions r.1 = ongoingSuggestions st
  ∧ ongoingSuggestions r.1 !! message_id i = Some s
  ∧ idVoteMap r.1 !! message_id i = Some (recorded i true (votesOf (message_id i) st))
  ∧ (∃ content, last r.2 = Some (Update content (Some [])))
  ∧ (accepted s r.2 →
       nicknames r.1 = nicknames st ++ [(nicknameUserID s, nickname s)])
  ∧ (rejected s r.2 → nicknames r.1 = nicknames st).
Proof.
  intros Hs Ht r Hd.
  destruct (handleInteraction_counted isTrusted i st s Hs Ht) as (Hv & Ho & [m Hp] & _).
  destruct (handleInteraction_decided isTrusted i st s Hs Ht) as [Ha Hr].
  fold r in Hv, Ho, Hp, Ha, Hr. clearbody r.
  split_and!; [done|by rewrite Ho| |..|done|done].
  - rewrite <- Hv. unfold votesOf. by rewrite Hp.
  - destruct Hd as [->| ->]; by eexists.
Qed.

Lemma decided_vote_keeps_entries_witness :
  ongoingSuggestions afterAlice !! "m1" = Some brudi
  ∧ everyoneTrusted "bob" = true
  ∧ (accepted brudi (handleInteraction everyoneTrusted (pressYes "bob") afterAlice).2
     ∨ rejected brudi (handleInteraction everyoneTrusted (pressYes "bob") afterAlice).2)
  ∧ ongoingSuggestions (handleInteraction everyoneTrusted (pressYes "bob") afterAlice).1
      !! "m1" = Some brudi.
Proof.
  assert (H1 : ongoingSuggestions afterAlice !! message_id (pressYes "bob") = Some brudi)
    by (vm_compute; reflexivity).
  assert (H2 : everyoneTrusted (user_id (pressYes "bob")) = true) by reflexivity.
  assert (H3 : accepted brudi (handleInteraction everyoneTrusted (pressYes "bob") afterAlice).2
     ∨ rejected brudi (handleInteraction everyoneTrusted (pressYes "bob") afterAlice).2)
    by (left; vm_compute; reflexivity).
  split_and!; [exact H1|exact H2|exact H3|].
  apply (decided_vote_keeps_entries everyoneTrusted (pressYes "bob") afterAlice brudi H1 H2 H3).
Defined.

(** *** The proposal *)

Lemma createNickNameVote_state (isTrusted : string → bool) mid uid nick st :
  let r := createNickNameVote isTrusted mid uid nick st in
  ongoingSuggestions r.1 = <[mid := mkSuggestion uid nick]> (ongoingSuggestions st)
  ∧ idVoteMap r.1 !! mid = Some (<[uid := mkUserVote YES (isTrusted uid)]> (votesOf mid st))
  ∧ nicknames r.1 = nicknames st.
Proof.
  unfold createNickNameVote.
  set (st1 := mkState _ (idVoteMap st) (nicknames st)).
  pose proof (getUserVoteMap_votesOf mid st1) as Hv.
  pose proof (getUserVoteMap_suggestions mid st1) as Ho.
  pose proof (getUserVoteMap_nicknames mid st1) as Hn.
  destruct (getUserVoteMap mid st1) as [st2 m]; simpl in *.
  rewrite Ho, Hn, lookup_insert_eq. fold (votesOf mid st2). by rewrite Hv.
Qed.

(** C8: creating the vote enters, without a word to anyone, a "yes" under
    the id of the member the nickname is for, flagged with that member's
    trust as of the creation.  The vote is in the map before any button is
    pressed and weighs in the "yes" sum (2 or 1, by the flag); a later press
    by someone else keeps it, flag included, and is added on top of it.  The
    [add] subcommand of a member with the trusted role, for a nickname not
    yet in the table, is exactly this step. *)
Theorem proposal_counts_target_yes (isTrusted : string → bool) mid uid nick st :
  let r := createNickNameVote isTrusted mid uid nick st in
  let mine := mkUserVote YES (isTrusted uid) in
  ongoingSuggestions r.1 !! mid = Some (mkSuggestion uid nick)
  ∧ idVoteMap r.1 !! mid = Some (<[uid := mine]> (votesOf mid st))
  ∧ votesOf mid r.1 !! uid = Some mine
  ∧ (∃ content, r.2 = [Reply content (Some ["nicknameVoteYes"; "nicknameVoteNo"]) false])
  ∧ weightOf YES (Object_values (votesOf mid r.1))
    = (if isTrusted uid then 2 else 1)
      + weightOf YES (Object_values (delete uid (votesOf mid st)))
  ∧ (idVoteMap st !! mid = None →
       weightOf YES (Object_values (votesOf mid r.1)) = (if isTrusted uid then 2 else 1)
       ∧ weightOf NO (Object_values (votesOf mid r.1)) = 0)
  ∧ (∀ (isTrusted' : string → bool) i,
       message_id i = mid → user_id i ≠ uid → isTrusted' (user_id i) = true →
       let after := votesOf mid (handleInteraction isTrusted' i r.1).1 in
       after !! uid = Some mine
       ∧ (buttonVote (customId i) = Some YES →
            weightOf YES (Object_values after)
            = 2 + (if isTrusted uid then 2 else 1)
              + weightOf YES
                  (Object_values (delete uid (delete (user_id i) (votesOf mid st))))))
  ∧ (nickNameExist uid nick (nicknames st) = false →
       handleAdd isTrusted true mid uid nick st = r).
Proof.
  intros r mine.
  destruct (createNickNameVote_state isTrusted mid uid nick st) as (Ho & Hv & _).
  fold r mine in Ho, Hv.
  assert (Hvo : votesOf mid r.1 = <[uid := mine]> (votesOf mid st))
    by (unfold votesOf at 1; by rewrite Hv).
  assert (Hc : ∀ which, contribution which mine
                 = if decide (YES = which) then (if isTrusted uid then 2 else 1) else 0)
    by reflexivity.
  assert (Hs : ongoingSuggestions r.1 !! mid = Some (mkSuggestion uid nick))
    by (rewrite Ho; apply lookup_insert_eq).
  split_and!.
  - exact Hs.
  - exact Hv.
  - rewrite Hvo. apply lookup_insert_eq.
  - subst r. unfold createNickNameVote.
    destruct (getUserVoteMap _ _); simpl. by eexists.
  - rewrite Hvo, weightOf_insert, Hc. by rewrite decide_True.
  - intros Hnone. rewrite Hvo. unfold votesOf. rewrite Hnone; simpl.
    rewrite insert_empty, !weightOf_single, !Hc.
    by rewrite decide_True, decide_False.
  - intros isTrusted' i Hmid Hne Ht after. subst after.
    rewrite <- Hmid in Hs.
    destruct (handleInteraction_counted isTrusted' i r.1 _ Hs Ht) as (Hv' & _).
    rewrite Hmid in Hv'. rewrite Hv', Hvo, recorded_buttonVote.
    split.
    + destruct (buttonVote (customId i)).
      * by rewrite lookup_insert_ne, lookup_insert_eq.
      * apply lookup_insert_eq.
    + intros ->. rewrite weightOf_insert, delete_insert_ne, weightOf_insert by done.
      rewrite Hc, decide_True by done. unfold contribution; simpl.
      unfold getWeightOfUserVote; simpl. lia.
  - intros He. unfold handleAdd. simpl. by rewrite He.
Qed.

(** The sample proposal, and alice's "yes" on top of the target's. *)
Lemma proposal_counts_target_yes_witness :
  votesOf "m1" proposed !! "target" = Some (mkUserVote YES true)
  ∧ weightOf YES (Object_values (votesOf "m1" proposed)) = 2
  ∧ weightOf YES (Object_values (votesOf "m1" afterAlice)) = 4.
Proof.
  pose proof (proposal_counts_target_yes everyoneTrusted "m1" "target" "Brudi" boot)
    as (_ & _ & H1 & _ & _ & H2 & H3 & H4).
  specialize (H4 eq_refl). specialize (H2 eq_refl) as [H2 _].
  specialize (H3 everyoneTrusted (pressYes "alice") eq_refl ltac:(discriminate) eq_refl)
    as [_ H3]. specialize (H3 eq_refl).
  unfold afterAlice, proposed. rewrite H4.
  split_and!; [exact H1|exact H2|]. rewrite H3. by vm_compute.
Defined.

End NicknameFacts.

(* ===================================================================== *)
(** ** Properties of the loot storage service                            *)
(* ===================================================================== *)

Module LootFacts.
Import Loot.

(** *** The statements on sample input *)

Example delete_unknown_loot : deleteLoot 100 7 dropped = Err NoResultError.
Proof. reflexivity. Qed.

Example transfer_unknown_loot :
  transferLootToUser 200 7 "bob" true dropped = Err NoResultError.
Proof. reflexivity. Qed.

Example replace_tracks_predecessor :
  ∃ new db',
    replaceLoot 100 1 (mkLoot None "Döner" "Mit scharf" 2 None "alice"
                         "2024-05-02T10:00:00.000Z" "g" "c" "m1" "replacement" None None)
      true dropped = Ok (new, db')
    ∧ id new = 2 ∧ predecessor new = Some 1
    ∧ findOfUser 100 "alice" db' = [new].
Proof. eexists _, _. split_and!; vm_compute; reflexivity. Qed.

(** *** Soft deletion *)

Lemma notDeleted_true t d :
  notDeleted t d = true ↔ d = None ∨ ∃ x, d = Some x ∧ t < x.
Proof.
  destruct d as [x|]; simpl.
  - rewrite bool_decide_eq_true. split; [intros H; right; by exists x|].
    intros [?|(y & [= ->] & ?)]; done.
  - split; [by left|done].
Qed.

Lemma notDeleted_past now t : now ≤ t → notDeleted t (Some now) = false.
Proof. intros H. simpl. apply bool_decide_eq_false. lia. Qed.

Lemma setDeletedAt_id d r : id (setDeletedAt d r) = id r.
Proof. reflexivity. Qed.

(** The table after the update of [deleteLoot]. *)
Lemma deleteLoot_Ok now lid db i db' :
  deleteLoot now lid db = Ok (i, db') →
  i = lid
  ∧ (∃ r, r ∈ loot db ∧ id r = lid)
  ∧ loot db' = updateDeletedAt now lid (loot db)
  ∧ lootAttribute db' = lootAttribute db.
Proof.
  unfold deleteLoot, takeFirstOrThrow.
  destruct (filter _ (loot db)) as [|r l] eqn:E; simpl; [discriminate|].
  intros [= <- <-]; simpl.
  assert (Hr : r ∈ filter (λ r, id r = lid) (loot db)) by (rewrite E; left).
  apply list_elem_of_filter in Hr as [Hid Hr]. eauto 6.
Qed.

Lemma deleteLoot_exists now lid db r :
  r ∈ loot db → id r = lid → ∃ db', deleteLoot now lid db = Ok (lid, db').
Proof.
  intros Hr Hid. unfold deleteLoot, takeFirstOrThrow.
  destruct (filter _ (loot db)) as [|r' l] eqn:E; simpl.
  - exfalso. by apply (filter_nil_not_elem_of _ _ r E Hid).
  - assert (Hr' : r' ∈ filter (λ r, id r = lid) (loot db)) by (rewrite E; left).
    apply list_elem_of_filter in Hr' as [-> _]. eauto.
Qed.

Lemma deleteLoot_deleted now lid db i db' r :
  deleteLoot now lid db = Ok (i, db') →
  r ∈ loot db' → id r = lid → deletedAt r = Some now.
Proof.
  intros (_ & _ & -> & _)%deleteLoot_Ok (r0 & -> & Hr0)%list_elem_of_fmap Hid.
  destruct (decide (id r0 = lid)); [reflexivity|done].
Qed.

(** *** The active-loot queries return active rows of the table *)

Ltac active_rows :=
  unfold activeRow; rewrite ?list_elem_of_filter, ?Is_true_true; tauto.

Lemma findOfUser_active t u db r : r ∈ findOfUser t u db → activeRow t db r.
Proof. unfold findOfUser. active_rows. Qed.

Lemma findOfUserWithAttributes_active t u db r attrs :
  (r, attrs) ∈ findOfUserWithAttributes t u db → activeRow t db r.
Proof.
  unfold findOfUserWithAttributes. intros (r' & [= <- _] & H)%list_elem_of_fmap.
  by apply findOfUser_active in H.
Qed.

Lemma findOfMessage_active t m db r : findOfMessage t m db = Some r → activeRow t db r.
Proof. unfold findOfMessage. intros H%head_Some_elem_of. revert H. active_rows. Qed.

Lemma getUserLootsByTypeId_active t u k db r :
  r ∈ getUserLootsByTypeId t u k db → activeRow t db r.
Proof. unfold getUserLootsByTypeId. active_rows. Qed.

Lemma getUserLootsWithAttribute_active t u k db r :
  r ∈ getUserLootsWithAttribute t u k db → activeRow t db r.
Proof. unfold getUserLootsWithAttribute. active_rows. Qed.

Lemma getUserLootById_active t u i db r :
  getUserLootById t u i db = Some r → activeRow t db r.
Proof. unfold getUserLootById. intros H%head_Some_elem_of. revert H. active_rows. Qed.

Lemma getLootsByKindId_active t k db r :
  r ∈ getLootsByKindId t k db → activeRow t db r.
Proof. unfold getLootsByKindId. active_rows. Qed.

Lemma getLootsWithAttribute_active t k db r :
  r ∈ getLootsWithAttribute t k db → activeRow t db r.
Proof. unfold getLootsWithAttribute. active_rows. Qed.

(** C5: [deleteLoot] on the id of a row of the table goes through, and at
    any time from the deletion on no active-loot query on the resulting
    table returns a row with that id: the rows with the id carry the
    deletion time, and a row counts as active exactly when its [deletedAt]
    is null or lies strictly after the time of the query. *)
Theorem deleted_loot_is_inactive now lid db r0 :
  r0 ∈ loot db → id r0 = lid →
  ∃ db', deleteLoot now lid db = Ok (lid, db')
  ∧ (∀ t d, notDeleted t d = true ↔ d = None ∨ ∃ x, d = Some x ∧ t < x)
  ∧ ∀ t, now ≤ t →
      (∀ r, r ∈ loot db' → id r = lid → notDeleted t (deletedAt r) = false)
    ∧ (∀ user r, r ∈ findOfUser t user db' → id r ≠ lid)
    ∧ (∀ user r attrs, (r, attrs) ∈ findOfUserWithAttributes t user db' → id r ≠ lid)
    ∧ (∀ message r, findOfMessage t message db' = Some r → id r ≠ lid)
    ∧ (∀ user kind r, r ∈ getUserLootsByTypeId t user kind db' → id r ≠ lid)
    ∧ (∀ user kind r, r ∈ getUserLootsWithAttribute t user kind db' → id r ≠ lid)
    ∧ (∀ user, getUserLootById t user lid db' = None)
    ∧ (∀ kind r, r ∈ getLootsByKindId t kind db' → id r ≠ lid)
    ∧ (∀ kind r, r ∈ getLootsWithAttribute t kind db' → id r ≠ lid).
Proof.
  intros Hr0 Hid0.
  destruct (deleteLoot_exists now lid db r0 Hr0 Hid0) as [db' Hdel].
  exists db'. split; [exact Hdel|]. split; [apply notDeleted_true|].
  intros t Ht.
  assert (Hgone : ∀ r, r ∈ loot db' → id r = lid → notDeleted t (deletedAt r) = false).
  { intros r Hr Hid. rewrite (deleteLoot_deleted _ _ _ _ _ _ Hdel Hr Hid).
    by apply notDeleted_past. }
  assert (Hact : ∀ r, activeRow t db' r → id r ≠ lid).
  { intros r [Hr Ha] Hid. rewrite (Hgone r Hr Hid) in Ha. discriminate. }
  split_and!; [exact Hgone|..].
  - intros ?? H. by eapply Hact, findOfUser_active.
  - intros ??? H. by eapply Hact, findOfUserWithAttributes_active.
  - intros ?? H. by eapply Hact, findOfMessage_active.
  - intros ??? H. by eapply Hact, getUserLootsByTypeId_active.
  - intros ??? H. by eapply Hact, getUserLootsWithAttribute_active.
  - intros user. destruct (getUserLootById t user lid db') as [r|] eqn:E; [|done].
    exfalso. apply (Hact r); [by eapply getUserLootById_active|].
    unfold getUserLootById in E. apply head_Some_elem_of in E.
    rewrite !list_elem_of_filter in E. tauto.
  - intros ?? H. by eapply Hact, getLootsByKindId_active.
  - intros ?? H. by eapply Hact, getLootsWithAttribute_active.
Qed.

(** alice's kebab, used up at time 100 and looked for at time 100. *)
Lemma deleted_loot_is_inactive_witness :
  ∃ r0, r0 ∈ loot dropped ∧ id r0 = 1
  ∧ deleteLoot 100 1 dropped = Ok (1, consumed)
  ∧ findOfUser 100 "alice" dropped ≠ []
  ∧ findOfUser 100 "alice" consumed = [].
Proof.
  assert (H : ∃ r0, r0 ∈ loot dropped ∧ id r0 = 1)
    by (eexists; split; [vm_compute; left|reflexivity]).
  destruct H as (r0 & Hr0 & Hid0). exists r0.
  destruct (deleted_loot_is_inactive 100 1 dropped r0 Hr0 Hid0) as (db' & Hd & _ & Hq).
  assert (Hc : db' = consumed) by (unfold consumed, dbAfter; by rewrite Hd).
  subst db'. split_and!; [done..| |].
  - by vm_compute.
  - destruct (Hq 100 ltac:(lia)) as (_ & Hf & _).
    destruct (findOfUser 100 "alice" consumed) as [|r l] eqn:E; [done|].
    assert (Hr : r ∈ findOfUser 100 "alice" consumed) by (rewrite E; left).
    apply Hf in Hr. revert E. vm_compute. discriminate.
Defined.

(** *** Ownership transfer *)

Lemma nextId_above rows r : r ∈ rows → id r < nextId rows.
Proof.
  unfold nextId. induction 1 as [r rows|r r' rows _ IH]; rewrite fmap_cons; simpl; lia.
Qed.

Lemma toNumber_exact n : Z.abs n ≤ 2 ^ 53 → toNumber n = n.
Proof.
  intros Hn. unfold toNumber. destruct (Z.abs n <? 2 ^ 53) eqn:E; [done|].
  apply Z.ltb_ge in E.
  assert (n = 2 ^ 53 ∨ n = - 2 ^ 53) as [-> | ->] by lia; reflexivity.
Qed.

Lemma nextId_bounded (rows : list Loot) b :
  1 ≤ b → (∀ r, r ∈ rows → id r < b) → 1 ≤ nextId rows ≤ b.
Proof.
  intros Hb. unfold nextId. induction rows as [|r rows IH]; intros H.
  - simpl. lia.
  - rewrite fmap_cons. simpl.
    assert (id r < b) by (apply H; left).
    assert (1 ≤ 1 + foldr Z.max 0 (id <$> rows) ≤ b)
      by (apply IH; intros x Hx; apply H; by right).
    lia.
Qed.

(** Below 2^53 the next key is one the program holds exactly. *)
Lemma nextId_exact (rows : list Loot) :
  (∀ r, r ∈ rows → id r < 2 ^ 53) → toNumber (nextId rows) = nextId rows.
Proof.
  intros H. apply toNumber_exact.
  pose proof (nextId_bounded rows (2 ^ 53) ltac:(lia) H). lia.
Qed.

Lemma nextId_softDeleted now lid rows :
  nextId (updateDeletedAt now lid rows) = nextId rows.
Proof.
  unfold nextId, updateDeletedAt. f_equal. f_equal. rewrite <- list_fmap_compose.
  apply list_fmap_ext. intros ? r _. simpl. by destruct (decide (id r = lid)).
Qed.

(** The row a transfer inserts and the table it leaves, [old] being the
    row the lookup by id finds. *)
Lemma transferLootToUser_run now lid user (track : bool) db old :
  head (selectLootById lid db) = Some old →
  let new :=
    mkLoot (nextId (loot db)) (displayName old) (description old) (lootKindId old)
      (usedImage old) user (claimedAt old) (guildId old) (channelId old) (messageId old)
      "owner-transfer" (if track then Some lid else None) (deletedAt old) in
  transferLootToUser now lid user track db
  = Ok (new,
        mkDatabase
          (updateDeletedAt now lid (loot db) ++ [new])
          (lootAttribute db)).
Proof.
  intros Hold new.
  assert (Hin : old ∈ selectLootById lid db) by by apply head_Some_elem_of.
  apply list_elem_of_filter in Hin as [Hid Hin].
  apply head_Some in Hold as [l Hl].
  unfold transferLootToUser, transaction, bind. rewrite Hl. simpl.
  destruct (deleteLoot_exists now (id old) db old Hin eq_refl) as [db1 Hdel].
  rewrite Hdel.
  apply deleteLoot_Ok in Hdel as (_ & _ & Hl1 & Ha1).
  unfold insertIntoLoot, withId; simpl.
  rewrite Ha1, Hl1, Hid, nextId_softDeleted. reflexivity.
Qed.

(** C4: a transfer of a loot the table has returns a new row whose key
    is fresh (different from the source's and from every key of the table),
    whose owner is the new owner, whose origin is "owner-transfer" and whose
    predecessor is the source id when tracking is asked for and null when it
    is not; the other columns are the source's.  The new row is in the
    table, and the rows with the source id carry the time of the transfer
    as deletion time, so that they are not active at any time from then
    on. *)
Theorem transfer_yields_successor now lid user (track : bool) db old :
  head (selectLootById lid db) = Some old →
  ∃ new db',
    transferLootToUser now lid user track db = Ok (new, db')
    ∧ predecessor new = (if track then Some lid else None)
    ∧ id new ≠ lid
    ∧ (∀ r, r ∈ loot db → id new ≠ id r)
    ∧ winnerId new = user
    ∧ origin new = "owner-transfer"
    ∧ (displayName new, description new, lootKindId new, usedImage new, claimedAt new,
       guildId new, channelId new, messageId new)
      = (displayName old, description old, lootKindId old, usedImage old, claimedAt old,
         guildId old, channelId old, messageId old)
    ∧ new ∈ loot db'
    ∧ (∀ r, r ∈ loot db' → id r = lid → deletedAt r = Some now)
    ∧ (∀ t r, now ≤ t → r ∈ loot db' → id r = lid → ¬ activeRow t db' r).
Proof.
  intros Hold. pose proof (transferLootToUser_run now lid user track db old Hold) as Hrun.
  simpl in Hrun. eexists _, _. split; [exact Hrun|]. simpl.
  assert (Hin : old ∈ selectLootById lid db) by by apply head_Some_elem_of.
  apply list_elem_of_filter in Hin as [Hid Hin].
  assert (Hfresh : ∀ r, r ∈ loot db → nextId (loot db) ≠ id r).
  { intros r Hr. pose proof (nextId_above _ _ Hr). lia. }
  assert (Hdel : ∀ r,
    r ∈ updateDeletedAt now lid (loot db)
        ++ [mkLoot (nextId (loot db)) (displayName old) (description old) (lootKindId old)
              (usedImage old) user (claimedAt old) (guildId old) (channelId old)
              (messageId old) "owner-transfer" (if track then Some lid else None)
              (deletedAt old)] →
    id r = lid → deletedAt r = Some now).
  { intros r [(r0 & -> & Hr0)%list_elem_of_fmap | ->%list_elem_of_singleton]%elem_of_app Hr.
    - by destruct (decide (id r0 = lid)).
    - simpl in Hr. exfalso. by apply (Hfresh old Hin); rewrite Hid. }
  split_and!; try done.
  - rewrite <- Hid. by apply Hfresh.
  - rewrite elem_of_app, list_elem_of_singleton. by right.
  - intros t r Ht Hr Hidr [_ Ha]. simpl in Hr.
    rewrite (Hdel r Hr Hidr), notDeleted_past in Ha by done. discriminate.
Qed.

(** alice's kebab goes to bob at time 200, with and without tracking. *)
Lemma transfer_yields_successor_witness :
  ∃ old, head (selectLootById 1 dropped) = Some old
  ∧ (∃ new db', transferLootToUser 200 1 "bob" true dropped = Ok (new, db')
       ∧ id new = 2 ∧ predecessor new = Some 1 ∧ winnerId new = "bob")
  ∧ (∃ new db', transferLootToUser 200 1 "bob" false dropped = Ok (new, db')
       ∧ predecessor new = None).
Proof.
  assert (H : ∃ old, head (selectLootById 1 dropped) = Some old)
    by (eexists; vm_compute; reflexivity).
  destruct H as [old Hold]. exists old. split; [exact Hold|]. split.
  - destruct (transfer_yields_successor 200 1 "bob" true dropped old Hold)
      as (new & db' & Hrun & Hp & _ & _ & Hw & _).
    exists new, db'. split_and!; [exact Hrun| |exact Hp|exact Hw].
    revert Hrun. vm_compute. by intros [= <- _].
  - destruct (transfer_yields_successor 200 1 "bob" false dropped old Hold)
      as (new & db' & Hrun & Hp & _).
    exists new, db'. by split.
Defined.

(** C10, refuted as stated: the döner of the sample data is active at
    time 200 and expires at time 500; transferred at time 200, its successor
    is active and carries the deletion time 500, not null. *)
Lemma transfer_of_dated_loot_keeps_the_date :
  ∃ old new db',
    head (selectLootById 2 expiring) = Some old
    ∧ notDeleted 200 (deletedAt old) = true
    ∧ transferLootToUser 200 2 "bob" true expiring = Ok (new, db')
    ∧ notDeleted 200 (deletedAt new) = true
    ∧ deletedAt new = Some 500
    ∧ deletedAt new ≠ None.
Proof.
  eexists _, _, _. split_and!; try (vm_compute; reflexivity). vm_compute. discriminate.
Qed.

(** C10, as the code has it: the lookup of a transfer is by id alone, so
    the transfer goes through for any row the table has under the id,
    active or not.  It stamps the rows under the id with the time of the
    transfer and adds one row, which carries the [deletedAt] the source had
    before the stamp.  From a source active at the time of the transfer the
    new row is active: with [deletedAt] null when the source's was null, and
    with the source's future deletion time, up to which it stays active,
    otherwise.  From a source soft-deleted before, the new row is
    soft-deleted since the same time and never active from the transfer on.
    On a table whose keys are below 2^53 the row returned is the row stored:
    its key is one no row had, the table after the transfer is the stamped
    table followed by it, and the queries find it for as long as it is
    active. *)
Theorem transfer_copies_prior_deletedAt now lid user (track : bool) db old :
  head (selectLootById lid db) = Some old →
  ∃ new db',
    transferLootToUser now lid user track db = Ok (new, db')
    ∧ length (loot db') = S (length (loot db))
    ∧ (∀ r, r ∈ loot db' → id r = lid → deletedAt r = Some now)
    ∧ deletedAt new = deletedAt old
    ∧ (notDeleted now (deletedAt old) = true → notDeleted now (deletedAt new) = true)
    ∧ (deletedAt old = None →
         deletedAt new = None ∧ ∀ t, notDeleted t (deletedAt new) = true)
    ∧ (∀ d, deletedAt old = Some d → now < d →
         deletedAt new = Some d ∧ ∀ t, t < d → notDeleted t (deletedAt new) = true)
    ∧ (∀ d, deletedAt old = Some d → d ≤ now →
         deletedAt new = Some d ∧ ∀ t, now ≤ t → notDeleted t (deletedAt new) = false)
    ∧ ((∀ r, r ∈ loot db → id r < 2 ^ 53) →
         toNumber (id new) = id new
         ∧ id new ≠ lid
         ∧ (∀ r, r ∈ loot db → id new ≠ id r)
         ∧ loot db' = updateDeletedAt now lid (loot db) ++ [new]
         ∧ ∀ t, notDeleted t (deletedAt new) = true →
             activeRow t db' new ∧ new ∈ findOfUser t user db').
Proof.
  intros Hold. pose proof (transferLootToUser_run now lid user track db old Hold) as Hrun.
  simpl in Hrun. eexists _, _. split; [exact Hrun|].
  assert (Hsel : old ∈ selectLootById lid db) by by apply head_Some_elem_of.
  apply list_elem_of_filter in Hsel as [Hid Hold_in].
  assert (Hfresh : ∀ r, r ∈ loot db → nextId (loot db) ≠ id r).
  { intros r Hr. pose proof (nextId_above _ _ Hr). lia. }
  unfold activeRow; simpl.
  assert (Hin : ∀ (new : Loot) rows, new ∈ rows ++ [new])
    by (intros; rewrite elem_of_app, list_elem_of_singleton; by right).
  split_and!.
  - rewrite length_app. unfold updateDeletedAt. rewrite length_fmap. simpl. lia.
  - intros r [(r0 & -> & Hr0)%list_elem_of_fmap | ->%list_elem_of_singleton]%elem_of_app Hr.
    + by destruct (decide (id r0 = lid)).
    + simpl in Hr. exfalso. apply (Hfresh old Hold_in). by rewrite Hid.
  - done.
  - done.
  - intros ->. by split.
  - intros d -> Hd. split; [done|]. intros t Ht.
    simpl. apply bool_decide_eq_true. lia.
  - intros d -> Hd. split; [done|]. intros t Ht.
    simpl. apply bool_decide_eq_false. lia.
  - intros Hsafe. split_and!.
    + by apply nextId_exact.
    + rewrite <- Hid. by apply Hfresh.
    + exact Hfresh.
    + done.
    + intros t Ht. split; [by split|].
      unfold findOfUser. simpl. rewrite !list_elem_of_filter. simpl.
      split_and!; [by apply Is_true_true|done|apply Hin].
Qed.

(** The kebab used up at time 100 still goes to bob at time 200, under a
    new key, and arrives used up. *)
Lemma transfer_copies_prior_deletedAt_witness :
  ∃ old, head (selectLootById 1 consumed) = Some old
  ∧ deletedAt old = Some 100
  ∧ ∃ new db', transferLootToUser 200 1 "bob" true consumed = Ok (new, db')
       ∧ length (loot db') = 2%nat
       ∧ id new ≠ 1
       ∧ deletedAt new = Some 100
       ∧ findOfUser 200 "bob" db' = [].
Proof.
  assert (H : ∃ old, head (selectLootById 1 consumed) = Some old ∧ deletedAt old = Some 100)
    by (eexists; split; vm_compute; reflexivity).
  destruct H as (old & Hold & Hd). exists old. split_and!; [exact Hold|exact Hd|].
  assert (Hids : id <$> loot consumed = [1]) by (vm_compute; reflexivity).
  assert (Hsafe : ∀ r, r ∈ loot consumed → id r < 2 ^ 53).
  { intros r Hr. assert (Hi : id r ∈ id <$> loot consumed) by (by apply list_elem_of_fmap_2).
    rewrite Hids in Hi. apply list_elem_of_singleton in Hi. rewrite Hi. reflexivity. }
  destruct (transfer_copies_prior_deletedAt 200 1 "bob" true consumed old Hold)
    as (new & db' & Hrun & Hlen & _ & He & _ & _ & _ & _ & Hkey).
  destruct (Hkey Hsafe) as (_ & Hne & _).
  exists new, db'. split_and!; [exact Hrun|exact Hlen|exact Hne|by rewrite He|].
  revert Hrun. vm_compute. by intros [= _ <-].
Defined.

(** *** Queries by attribute *)

Lemma hasAttribute_true k db (r : Loot) a :
  a ∈ lootAttribute db → lootId a = id r → attributeKindId a = k →
  hasAttribute k db r = true.
Proof.
  intros Ha Hl Hk. unfold hasAttribute. apply bool_decide_eq_true.
  rewrite <- Hl. apply list_elem_of_fmap_2, list_elem_of_filter. by split.
Qed.

(** C9: the two queries by attribute look at the [lootAttribute] rows
    without regard to their [deletedAt]: an active loot with a row of the
    kind, whatever that row's deletion state, is returned by both.  So it is
    when the only row of the kind was soft-deleted in the past, although the
    listing of the owner's loot with attributes then shows no attribute of
    that kind for it. *)
Theorem attribute_queries_ignore_attribute_deletion t k db (r : Loot) a :
  activeRow t db r →
  a ∈ lootAttribute db → lootId a = id r → attributeKindId a = k →
  r ∈ getLootsWithAttribute t k db
  ∧ r ∈ getUserLootsWithAttribute t (winnerId r) k db
  ∧ (∀ d, attrDeletedAt a = Some d → d ≤ t →
       attributesOfKind (id r) k db = [a] →
       notDeleted t (attrDeletedAt a) = false
       ∧ ∀ attrs a', (r, attrs) ∈ findOfUserWithAttributes t (winnerId r) db →
           a' ∈ attrs → attributeKindId a' ≠ k).
Proof.
  intros [Hr Hact] Ha Hl Hk.
  pose proof (hasAttribute_true k db r a Ha Hl Hk) as Hh.
  split_and!.
  - unfold getLootsWithAttribute. rewrite !list_elem_of_filter, !Is_true_true. done.
  - unfold getUserLootsWithAttribute. rewrite !list_elem_of_filter, !Is_true_true. done.
  - intros d Hd Hle Honly.
    assert (Hnd : notDeleted t (attrDeletedAt a) = false)
      by (rewrite Hd; by apply notDeleted_past).
    split; [exact Hnd|].
    intros attrs a' (r' & [= <- ->] & _)%list_elem_of_fmap Ha' Hk'.
    rewrite !list_elem_of_filter, Is_true_true in Ha'. destruct Ha' as (Hnd' & Hl' & Hin').
    assert (Hm : a' ∈ attributesOfKind (id r) k db)
      by (unfold attributesOfKind; rewrite list_elem_of_filter; done).
    rewrite Honly in Hm. apply list_elem_of_singleton in Hm as ->. congruence.
Qed.

(** alice's kebab with its rarity row soft-deleted at 50, asked for at 60. *)
Lemma attribute_queries_ignore_attribute_deletion_witness :
  ∃ r a, activeRow 60 attributeGone r
  ∧ a ∈ lootAttribute attributeGone ∧ lootId a = id r ∧ attributeKindId a = 2
  ∧ notDeleted 60 (attrDeletedAt a) = false
  ∧ r ∈ getLootsWithAttribute 60 2 attributeGone
  ∧ r ∈ getUserLootsWithAttribute 60 "alice" 2 attributeGone.
Proof.
  assert (H : ∃ r a, activeRow 60 attributeGone r
    ∧ a ∈ lootAttribute attributeGone ∧ lootId a = id r ∧ attributeKindId a = 2
    ∧ notDeleted 60 (attrDeletedAt a) = false ∧ winnerId r = "alice").
  { eexists _, _. unfold activeRow.
    split_and!; [vm_compute; left|..|vm_compute; left| | | |]; reflexivity. }
  destruct H as (r & a & Hr & Ha & Hl & Hk & Hd & Hw). exists r, a.
  destruct (attribute_queries_ignore_attribute_deletion 60 2 attributeGone r a Hr Ha Hl Hk)
    as (H1 & H2 & _).
  rewrite Hw in H2. by split_and!.
Defined.

(** *** Attaching an attribute *)

Lemma attributeConflict_false lid k db :
  attributeConflict lid k (lootAttribute db) = false ↔ attributesOfKind lid k db = [].
Proof.
  unfold attributeConflict, attributesOfKind. rewrite bool_decide_eq_false, Exists_exists.
  split.
  - intros H. destruct (filter _ _) as [|a l] eqn:E; [done|].
    assert (Ha : a ∈ filter (λ a, lootId a = lid ∧ attributeKindId a = k) (lootAttribute db))
      by (rewrite E; left).
    apply list_elem_of_filter in Ha as [Hk Ha]. exfalso. apply H. by exists a.
  - intros E (a & Ha & Hk). by apply (filter_nil_not_elem_of _ _ a E Hk).
Qed.

Lemma attributeConflict_true lid k db :
  attributeConflict lid k (lootAttribute db) = true ↔ attributesOfKind lid k db ≠ [].
Proof.
  rewrite <- attributeConflict_false. by destruct (attributeConflict _ _ _).
Qed.

(** With a row under the key in the table the call raises: the insert is
    skipped, the statement returns no row, and taking the first one throws. *)
Lemma addLootAttributeIfNotPresent_present lid tpl db :
  attributesOfKind lid (atId tpl) db ≠ [] →
  addLootAttributeIfNotPresent lid tpl db = Err NoResultError.
Proof.
  intros H%attributeConflict_true.
  unfold addLootAttributeIfNotPresent, insertLootAttributeOnConflictDoNothing.
  by rewrite H.
Qed.

(** C2, on the code: from a table without a row under (lootId,
    attributeKindId) the first call inserts one row, active, and returns it.
    The second call with the same arguments leaves that one row alone, but
    it does not return: it raises [NoResultError]. *)
Theorem repeated_attribute_insert_raises lid tpl db :
  attributesOfKind lid (atId tpl) db = [] →
  ∃ a db1,
    addLootAttributeIfNotPresent lid tpl db = Ok (a, db1)
    ∧ attributesOfKind lid (atId tpl) db1 = [a]
    ∧ attrDeletedAt a = None
    ∧ addLootAttributeIfNotPresent lid tpl db1 = Err NoResultError
    ∧ dbAfter (addLootAttributeIfNotPresent lid tpl) db1 = db1.
Proof.
  intros Hnone. pose proof Hnone as Hc. apply attributeConflict_false in Hc.
  unfold addLootAttributeIfNotPresent at 1, insertLootAttributeOnConflictDoNothing.
  rewrite Hc. simpl. eexists _, _. split; [reflexivity|].
  assert (Hone : attributesOfKind lid (atId tpl)
            (mkDatabase (loot db)
               (lootAttribute db ++
                  [mkLootAttribute (nextAttrId (lootAttribute db)) lid (atId tpl) (classId tpl)
                     (atDisplayName tpl) (atShortDisplay tpl) (atColor tpl) None]))
          = [mkLootAttribute (nextAttrId (lootAttribute db)) lid (atId tpl) (classId tpl)
               (atDisplayName tpl) (atShortDisplay tpl) (atColor tpl) None]).
  { unfold attributesOfKind in *; simpl. rewrite filter_app, Hnone; simpl.
    by rewrite filter_cons_True, filter_nil. }
  assert (Herr : ∀ db1 a, attributesOfKind lid (atId tpl) db1 = [a] →
            addLootAttributeIfNotPresent lid tpl db1 = Err NoResultError).
  { intros db1 a E. apply addLootAttributeIfNotPresent_present. by rewrite E. }
  split_and!; [exact Hone|done|by eapply Herr|].
  unfold dbAfter. by erewrite Herr.
Qed.

(** The second attach of "Selten" to alice's kebab. *)
Lemma repeated_attribute_insert_raises_witness :
  attributesOfKind 1 2 plain = []
  ∧ (∃ a, addLootAttributeIfNotPresent 1 selten plain = Ok (a, dropped))
  ∧ addLootAttributeIfNotPresent 1 selten dropped = Err NoResultError.
Proof.
  assert (H : attributesOfKind 1 (atId selten) plain = []) by (vm_compute; reflexivity).
  destruct (repeated_attribute_insert_raises 1 selten plain H)
    as (a & db1 & H1 & _ & _ & H2 & _).
  assert (Hd : db1 = dropped) by (revert H1; vm_compute; by intros [= _ <-]).
  subst db1. split_and!; [exact H|by exists a|exact H2].
Defined.

End LootFacts.

(* ===================================================================== *)
(** ** Further properties of the loot storage service                    *)
(* ===================================================================== *)

Module LootServiceFacts.
Import Loot LootFacts.

#[local] Arguments nextId : simpl never.
#[local] Arguments nextAttrId : simpl never.

(** *** When the mutations go through *)

Lemma selectLootById_elem lid db r : r ∈ selectLootById lid db ↔ id r = lid ∧ r ∈ loot db.
Proof. unfold selectLootById. by rewrite list_elem_of_filter. Qed.

Lemma selectLootById_nil lid db : selectLootById lid db = [] ↔ lid ∉ lootIds db.
Proof.
  unfold lootIds. rewrite list_elem_of_fmap. split.
  - intros E (r & -> & Hr).
    assert (H : r ∈ selectLootById (id r) db) by (by apply selectLootById_elem).
    rewrite E in H. by apply elem_of_nil in H.
  - intros H. destruct (selectLootById lid db) as [|r l] eqn:E; [done|].
    assert (Hr : r ∈ selectLootById lid db) by (rewrite E; left).
    apply selectLootById_elem in Hr as [<- Hr]. exfalso. apply H. by exists r.
Qed.

Lemma deleteLoot_missing now lid db :
  lid ∉ lootIds db → deleteLoot now lid db = Err NoResultError.
Proof.
  intros H%selectLootById_nil. unfold deleteLoot, takeFirstOrThrow.
  unfold selectLootById in H. by rewrite H.
Qed.

Lemma deleteLoot_present now lid db :
  lid ∈ lootIds db →
  deleteLoot now lid db
  = Ok (lid, mkDatabase (updateDeletedAt now lid (loot db)) (lootAttribute db)).
Proof.
  intros (r & -> & Hr)%list_elem_of_fmap.
  destruct (deleteLoot_exists now (id r) db r Hr eq_refl) as [db' Hd].
  rewrite Hd. f_equal. f_equal.
  apply deleteLoot_Ok in Hd as (_ & _ & Hl & Ha). destruct db'; simpl in *. by subst.
Qed.

Lemma lootIds_updateDeletedAt now lid rows : id <$> updateDeletedAt now lid rows = id <$> rows.
Proof.
  unfold updateDeletedAt. rewrite <- list_fmap_compose.
  apply list_fmap_ext. intros ? r _. simpl. by destruct (decide (id r = lid)).
Qed.

Lemma insertIntoLoot_fresh (values : LootInsertable) db :
  id values = None →
  insertIntoLoot values db
  = Ok (withId (nextId (loot db)) values,
        mkDatabase (loot db ++ [withId (nextId (loot db)) values]) (lootAttribute db)).
Proof. intros H. unfold insertIntoLoot. by rewrite H. Qed.

Lemma nextId_not_in db : nextId (loot db) ∉ lootIds db.
Proof.
  unfold lootIds. intros (r & E & Hr)%list_elem_of_fmap.
  pose proof (nextId_above _ _ Hr). lia.
Qed.

(** X1: the three mutations that start from a loot id raise
    [NoResultError] when no row of the table has the id, and go through
    when one has (for [replaceLoot], with replacement values that leave the
    key to the engine); whether the row is active plays no part. *)
Theorem mutations_need_a_row now lid db :
  (lid ∉ lootIds db →
     deleteLoot now lid db = Err NoResultError
     ∧ (∀ user track, transferLootToUser now lid user track db = Err NoResultError)
     ∧ (∀ values track, replaceLoot now lid values track db = Err NoResultError))
  ∧ (lid ∈ lootIds db →
       (∃ db', deleteLoot now lid db = Ok (lid, db'))
       ∧ (∀ user track, ∃ new db', transferLootToUser now lid user track db = Ok (new, db'))
       ∧ (∀ (values : LootInsertable) track, id values = None →
            ∃ new db', replaceLoot now lid values track db = Ok (new, db'))).
Proof.
  split.
  - intros Hno. pose proof (deleteLoot_missing now lid db Hno) as Hd.
    split_and!; [exact Hd|..].
    + intros user track. apply selectLootById_nil in Hno.
      unfold transferLootToUser, transaction, bind, takeFirstOrThrow. by rewrite Hno.
    + intros values track. unfold replaceLoot, transaction, bind. by rewrite Hd.
  - intros Hin. pose proof (deleteLoot_present now lid db Hin) as Hd.
    split_and!; [by eexists|..].
    + intros user track.
      destruct (selectLootById lid db) as [|old l] eqn:E;
        [by apply selectLootById_nil in E|].
      eexists _, _. by apply (transferLootToUser_run now lid user track db old); rewrite E.
    + intros values track Hid. unfold replaceLoot, transaction, bind. rewrite Hd.
      rewrite insertIntoLoot_fresh by done. by eexists _, _.
Qed.

Lemma mutations_need_a_row_witness :
  (7 ∉ lootIds dropped) ∧ (1 ∈ lootIds consumed)
  ∧ transferLootToUser 200 7 "bob" true dropped = Err NoResultError
  ∧ ∃ db', deleteLoot 300 1 consumed = Ok (1, db').
Proof.
  assert (H7 : 7 ∉ lootIds dropped) by (vm_compute; by intros [[=]|[]%elem_of_nil]%elem_of_cons).
  assert (H1 : 1 ∈ lootIds consumed) by (vm_compute; left).
  split_and!; [exact H7|exact H1|..].
  - by apply (mutations_need_a_row 200 7 dropped).
  - by apply (mutations_need_a_row 300 1 consumed).
Defined.

(** *** What the mutations keep *)

Lemma keepsInvariants_refl db : keepsInvariants db db.
Proof. by unfold keepsInvariants, keepsRows. Qed.

Lemma keepsInvariants_trans db1 db2 db3 :
  keepsInvariants db1 db2 → keepsInvariants db2 db3 → keepsInvariants db1 db3.
Proof.
  unfold keepsInvariants, keepsRows.
  intros ([? ?] & ? & ?) ([? ?] & ? & ?). split_and!; [by etrans|by etrans|auto..].
Qed.

Lemma insertIntoLoot_Ok (values : LootInsertable) db r db' :
  insertIntoLoot values db = Ok (r, db') →
  loot db' = loot db ++ [r]
  ∧ (id r ∉ lootIds db)
  ∧ lootAttribute db' = lootAttribute db
  ∧ r = withId (id r) values.
Proof.
  unfold insertIntoLoot. destruct (id values) as [i|] eqn:E.
  - case_bool_decide as Hi; [discriminate|]. intros [= <- <-]. by simpl.
  - intros [= <- <-]. split_and!; try done. apply nextId_not_in.
Qed.

Lemma insertIntoLoot_keeps (values : LootInsertable) db r db' :
  insertIntoLoot values db = Ok (r, db') → keepsInvariants db db'.
Proof.
  intros (Hl & Hf & Ha & _)%insertIntoLoot_Ok.
  assert (Hids : lootIds db' = lootIds db ++ [id r])
    by (unfold lootIds; by rewrite Hl, fmap_app).
  unfold keepsInvariants, keepsRows, attributesReferToLoot. rewrite Hids, Ha.
  split_and!; [by apply prefix_app_r|done| |].
  - intros Hnd. apply NoDup_app. split_and!; [done| |apply NoDup_singleton].
    intros x Hx ->%list_elem_of_singleton. done.
  - intros H a Hin. rewrite elem_of_app. left. by apply H.
Qed.

Lemma deleteLoot_keeps now lid db i db' :
  deleteLoot now lid db = Ok (i, db') → keepsInvariants db db'.
Proof.
  intros (_ & _ & Hl & Ha)%deleteLoot_Ok.
  assert (Hids : lootIds db' = lootIds db)
    by (unfold lootIds; by rewrite Hl, lootIds_updateDeletedAt).
  unfold keepsInvariants, keepsRows, attributesReferToLoot. by rewrite Hids, Ha.
Qed.

Lemma addLootAttributeIfNotPresent_Ok lid tpl db a db' :
  addLootAttributeIfNotPresent lid tpl db = Ok (a, db') →
  loot db' = loot db
  ∧ lootAttribute db' = lootAttribute db ++ [a]
  ∧ lootId a = lid ∧ attributeKindId a = atId tpl ∧ attrDeletedAt a = None
  ∧ attributesOfKind lid (atId tpl) db = [].
Proof.
  unfold addLootAttributeIfNotPresent, insertLootAttributeOnConflictDoNothing.
  destruct (attributeConflict _ _ _) eqn:E; simpl; [discriminate|].
  intros [= <- <-]. simpl. by apply attributeConflict_false in E.
Qed.

Lemma addLootAttributeIfNotPresent_keeps lid tpl db a db' :
  lid ∈ lootIds db →
  addLootAttributeIfNotPresent lid tpl db = Ok (a, db') → keepsInvariants db db'.
Proof.
  intros Hin (Hl & Ha & Hid & _)%addLootAttributeIfNotPresent_Ok.
  assert (Hids : lootIds db' = lootIds db) by (unfold lootIds; by rewrite Hl).
  unfold keepsInvariants, keepsRows, attributesReferToLoot. rewrite Hids, Ha.
  split_and!; [done|by apply prefix_app_r|done|].
  intros H x [Hx| ->%list_elem_of_singleton]%elem_of_app; [by apply H|by rewrite Hid].
Qed.

(** X2: whatever goes through, [createLoot], [deleteLoot],
    [transferLootToUser] and [replaceLoot] remove no row and move none: the
    keys of the [loot] table and the rows of [lootAttribute] after the call
    start with those before it.  Keys that were unique stay unique, and
    attribute rows that all belonged to a loot row still do. *)
Theorem mutations_keep_rows_and_keys db db' :
  (∀ template winner message now origin' pred rarity res,
     createLoot template winner message now origin' pred rarity db = Ok (res, db') →
     keepsInvariants db db')
  ∧ (∀ now lid i, deleteLoot now lid db = Ok (i, db') → keepsInvariants db db')
  ∧ (∀ now lid user track new,
       transferLootToUser now lid user track db = Ok (new, db') → keepsInvariants db db')
  ∧ (∀ now lid values track new,
       replaceLoot now lid values track db = Ok (new, db') → keepsInvariants db db').
Proof.
  split_and!.
  - intros template winner message now origin' pred rarity res.
    unfold createLoot, transaction, bind.
    destruct (insertIntoLoot _ db) as [[r db1]|] eqn:E1; [|discriminate].
    pose proof (insertIntoLoot_keeps _ _ _ _ E1) as K1.
    destruct rarity as [a|]; [|by intros [= <- <-]].
    destruct (addLootAttributeIfNotPresent (id r) a db1) as [[x db2]|] eqn:E2;
      [|discriminate].
    intros [= <- <-]. apply (keepsInvariants_trans _ db1); [done|].
    apply (addLootAttributeIfNotPresent_keeps (id r) a db1 x); [|done].
    apply insertIntoLoot_Ok in E1 as (Hl & _). unfold lootIds.
    rewrite Hl, fmap_app, elem_of_app. right. by apply list_elem_of_singleton.
  - intros now lid i. apply deleteLoot_keeps.
  - intros now lid user track new. unfold transferLootToUser, transaction, bind.
    destruct (takeFirstOrThrow _ db) as [[old db0]|] eqn:E0; [|discriminate].
    assert (db0 = db) as ->
      by (unfold takeFirstOrThrow in E0; destruct (selectLootById lid db); by simplify_eq).
    destruct (deleteLoot now (id old) db) as [[i db1]|] eqn:E1; [|discriminate].
    intros E2. apply (keepsInvariants_trans _ db1).
    + by eapply deleteLoot_keeps.
    + by eapply insertIntoLoot_keeps.
  - intros now lid values track new. unfold replaceLoot, transaction, bind.
    destruct (deleteLoot now lid db) as [[i db1]|] eqn:E1; [|discriminate].
    intros E2. apply (keepsInvariants_trans _ db1).
    + by eapply deleteLoot_keeps.
    + by eapply insertIntoLoot_keeps.
Qed.

Lemma mutations_keep_rows_and_keys_witness :
  ∃ new db', transferLootToUser 200 1 "bob" true dropped = Ok (new, db')
  ∧ lootIds dropped = [1] ∧ lootIds db' = [1; 2]
  ∧ keepsInvariants dropped db'.
Proof.
  eexists _, _. split; [vm_compute; reflexivity|].
  split_and!; [vm_compute; reflexivity..|].
  pose proof (mutations_keep_rows_and_keys dropped) as H.
  edestruct H as (_ & _ & Ht & _). eapply (Ht 200 1 "bob" true).
  vm_compute. reflexivity.
Defined.

(** *** A drop and what finds it *)

Lemma filter_nil_iff {A} (P : A → Prop) `{∀ x, Decision (P x)} (l : list A) :
  filter P l = [] ↔ ∀ x, x ∈ l → ¬ P x.
Proof.
  split.
  - intros E x Hx HP. by apply (filter_nil_not_elem_of _ _ x E HP).
  - intros Hno. induction l as [|x l IH]; [done|].
    rewrite filter_cons_False by (apply Hno; left).
    apply IH. intros y Hy. apply Hno. by right.
Qed.

Lemma no_attributes_of_next_id db :
  attributesReferToLoot db →
  filter (λ a, lootId a = nextId (loot db)) (lootAttribute db) = [].
Proof.
  intros Href. apply filter_nil_iff. intros a Ha E.
  apply (nextId_not_in db). rewrite <- E. by apply Href.
Qed.

(** The loot row and the attribute rows a drop adds. *)
Lemma createLoot_run template winner message now origin' pred rarity db :
  attributesReferToLoot db →
  let res : Loot :=
    mkLoot (nextId (loot db)) (tplDisplayName template) (dropDescription template)
      (tplId template) (asset template) winner now
      (from_option (λ m, m.1.1) "" message) (from_option (λ m, m.1.2) "" message)
      (from_option (λ m, m.2) "" message) origin' pred None in
  let rows :=
    match rarity with
    | Some a => [mkLootAttribute (nextAttrId (lootAttribute db)) (nextId (loot db))
                   (atId a) (classId a) (atDisplayName a) (atShortDisplay a) (atColor a) None]
    | None => []
    end in
  createLoot template winner message now origin' pred rarity db
  = Ok (res, mkDatabase (loot db ++ [res]) (lootAttribute db ++ rows)).
Proof.
  intros Href res rows. unfold createLoot, transaction, bind.
  rewrite insertIntoLoot_fresh by done. simpl. fold res.
  destruct rarity as [a|]; simpl; [|unfold ret; by rewrite app_nil_r].
  unfold addLootAttributeIfNotPresent, insertLootAttributeOnConflictDoNothing. simpl.
  assert (Hc : attributeConflict (nextId (loot db)) (atId a) (lootAttribute db) = false).
  { apply bool_decide_eq_false. rewrite Exists_exists. intros (x & Hx & Hl & _).
    pose proof (no_attributes_of_next_id db Href) as E.
    by apply (filter_nil_not_elem_of _ _ x E Hl). }
  by rewrite Hc.
Qed.

(** X3: on a table whose attribute rows all belong to a loot row and whose
    keys are below 2^53, a drop goes through for any template, winner and
    rarity.  The loot it returns has a key no row had, which a JS number
    holds exactly, so that the key the program hands on to the attribute
    insert is the stored one; it has the template's kind, the winner as
    owner and no deletion time.  From then on it is among the winner's loot
    and the loot of its kind, is found under the winner and its key, and
    carries exactly the rarity attribute it was dropped with (none without
    one). *)
Theorem dropped_loot_is_found template winner message now origin' pred rarity db :
  attributesReferToLoot db →
  (∀ r, r ∈ loot db → id r < 2 ^ 53) →
  ∃ res db',
    createLoot template winner message now origin' pred rarity db = Ok (res, db')
    ∧ (id res ∉ lootIds db)
    ∧ toNumber (id res) = id res
    ∧ winnerId res = winner ∧ lootKindId res = tplId template
    ∧ origin res = origin' ∧ predecessor res = pred ∧ deletedAt res = None
    ∧ ∀ t,
        res ∈ findOfUser t winner db'
      ∧ res ∈ getLootsByKindId t (tplId template) db'
      ∧ getUserLootById t winner (id res) db' = Some res
      ∧ match rarity with
        | Some a =>
            res ∈ getLootsWithAttribute t (atId a) db'
            ∧ ∃ row, getLootAttributes t (id res) db' = [row]
                ∧ lootId row = id res ∧ attributeKindId row = atId a
                ∧ attributeClassId row = classId a
        | None =>
            getLootAttributes t (id res) db' = []
            ∧ ∀ k, res ∉ getLootsWithAttribute t k db'
        end.
Proof.
  intros Href Hsafe.
  pose proof (createLoot_run template winner message now origin' pred rarity db Href) as Hrun.
  simpl in Hrun. eexists _, _. split; [exact Hrun|]. simpl.
  pose proof (no_attributes_of_next_id db Href) as Hnone.
  assert (Hin : ∀ (r : Loot) rows, r ∈ rows ++ [r])
    by (intros; rewrite elem_of_app, list_elem_of_singleton; by right).
  split_and!; [apply nextId_not_in| |done..|].
  { by apply nextId_exact. }
  intros t. split_and!.
  - unfold findOfUser; simpl. rewrite !list_elem_of_filter, Is_true_true. by split_and!.
  - unfold getLootsByKindId; simpl. rewrite !list_elem_of_filter, Is_true_true. by split_and!.
  - unfold getUserLootById; simpl. rewrite !filter_app.
    assert (E : filter (λ r : Loot, id r = nextId (loot db))
                  (filter (λ r : Loot, winnerId r = winner) (loot db)) = []).
    { apply filter_nil_iff. intros r [_ Hr]%list_elem_of_filter Hid.
      pose proof (nextId_above _ _ Hr). lia. }
    rewrite E. simpl.
    rewrite (filter_cons_True (λ r : Loot, winnerId r = winner)) by done.
    rewrite filter_nil. rewrite (filter_cons_True (λ r : Loot, id r = _)) by done.
    rewrite filter_nil. by rewrite filter_cons_True.
  - destruct rarity as [a|].
    + split.
      * unfold getLootsWithAttribute; simpl.
        rewrite !list_elem_of_filter, !Is_true_true. split_and!; [|done..].
        apply (hasAttribute_true _ _ _
                 (mkLootAttribute (nextAttrId (lootAttribute db)) (nextId (loot db))
                    (atId a) (classId a) (atDisplayName a) (atShortDisplay a)
                    (atColor a) None)); [|reflexivity..]. simpl.
        rewrite elem_of_app, list_elem_of_singleton. by right.
      * eexists. unfold getLootAttributes; simpl. rewrite !filter_app, Hnone. simpl.
        rewrite (filter_cons_True (λ a0, lootId a0 = _)) by done. rewrite filter_nil.
        rewrite filter_cons_True by done. rewrite filter_nil. by split_and!.
    + split.
      * unfold getLootAttributes; simpl. by rewrite app_nil_r, Hnone.
      * intros k. unfold getLootsWithAttribute; simpl.
        rewrite !list_elem_of_filter, !Is_true_true. intros (Hh & _).
        unfold hasAttribute in Hh. apply bool_decide_eq_true in Hh. simpl in Hh.
        rewrite app_nil_r in Hh.
        apply list_elem_of_fmap in Hh as (x & Hx & [_ Hxin]%list_elem_of_filter).
        by apply (filter_nil_not_elem_of _ _ x Hnone).
Qed.

(** alice's kebab, dropped into the empty database. *)
Lemma dropped_loot_is_found_witness :
  attributesReferToLoot emptyDb
  ∧ (∀ r, r ∈ loot emptyDb → id r < 2 ^ 53)
  ∧ ∃ res,
      createLoot kebab "alice" (Some ("g", "c", "m1")) "2024-05-01T10:00:00.000Z"
        "drop" None (Some selten) emptyDb = Ok (res, dropped)
      ∧ res ∈ findOfUser 0 "alice" dropped.
Proof.
  assert (H : attributesReferToLoot emptyDb) by (intros a Ha; by apply elem_of_nil in Ha).
  assert (H' : ∀ r, r ∈ loot emptyDb → id r < 2 ^ 53)
    by (intros r Hr; by apply elem_of_nil in Hr).
  split; [exact H|]. split; [exact H'|].
  destruct (dropped_loot_is_found kebab "alice" (Some ("g", "c", "m1"))
              "2024-05-01T10:00:00.000Z" "drop" None (Some selten) emptyDb H H')
    as (res & db' & Hrun & _ & _ & _ & _ & _ & _ & _ & Ht).
  assert (db' = dropped) as -> by (unfold dropped, dbAfter; by rewrite Hrun).
  exists res. split; [exact Hrun|]. apply (Ht 0).
Defined.

(** Above 2^53 a key and the JS number for it part ways. *)
Example toNumber_rounds :
  toNumber (2 ^ 53) = 2 ^ 53
  ∧ toNumber (2 ^ 53 + 1) = 2 ^ 53
  ∧ toNumber (2 ^ 53 + 2) = 2 ^ 53 + 2
  ∧ toNumber (2 ^ 53 + 3) = 2 ^ 53 + 4
  ∧ toNumber (- (2 ^ 53 + 1)) = - 2 ^ 53.
Proof. by vm_compute. Qed.

(** *** A transfer, the inventories and the attributes *)

Lemma setDeletedAt_inactive now t (r : Loot) :
  now ≤ t → ¬ notDeleted t (deletedAt (setDeletedAt (Some now) r)).
Proof. intros Ht H%Is_true_true. simpl in H. apply bool_decide_eq_true in H. lia. Qed.

Lemma findOfUser_updateDeletedAt now t lid u rows :
  now ≤ t →
  filter (λ r : Loot, notDeleted t (deletedAt r))
    (filter (λ r : Loot, winnerId r = u) (updateDeletedAt now lid rows))
  = filter (λ r : Loot, id r ≠ lid)
      (filter (λ r : Loot, notDeleted t (deletedAt r))
         (filter (λ r : Loot, winnerId r = u) rows)).
Proof.
  intros Ht. unfold updateDeletedAt.
  induction rows as [|r rows IH]; [done|]. rewrite fmap_cons. cbn beta.
  destruct (decide (id r = lid)) as [Hid|Hid].
  - destruct (decide (winnerId r = u)) as [Hw|Hw].
    + rewrite (filter_cons_True (λ r : Loot, winnerId r = u)) by done.
      rewrite (filter_cons_False (λ r : Loot, Is_true (notDeleted t (deletedAt r))))
        by (by apply setDeletedAt_inactive).
      rewrite (filter_cons_True (λ r : Loot, winnerId r = u) r) by done.
      destruct (notDeleted t (deletedAt r)) eqn:Ha.
      * rewrite (filter_cons_True (λ r : Loot, Is_true (notDeleted t (deletedAt r))) r)
          by (by apply Is_true_true).
        by rewrite filter_cons_False by (intros H; by apply H).
      * by rewrite (filter_cons_False (λ r : Loot, Is_true (notDeleted t (deletedAt r))) r)
          by (by apply Is_true_false).
    + by rewrite !(filter_cons_False (λ r : Loot, winnerId r = u)) by done.
  - destruct (decide (winnerId r = u)) as [Hw|Hw].
    + rewrite !(filter_cons_True (λ r : Loot, winnerId r = u)) by done.
      destruct (notDeleted t (deletedAt r)) eqn:Ha.
      * rewrite !(filter_cons_True (λ r : Loot, Is_true (notDeleted t (deletedAt r))))
          by (by apply Is_true_true).
        rewrite filter_cons_True by done. by rewrite IH.
      * by rewrite !(filter_cons_False (λ r : Loot, Is_true (notDeleted t (deletedAt r))))
          by (by apply Is_true_false).
    + by rewrite !(filter_cons_False (λ r : Loot, winnerId r = u)) by done.
Qed.

(** X4: a transfer takes the loot out of every inventory and puts its
    successor into the new owner's.  At any time from the transfer on, the
    loot of a member is what it was without the rows under the transferred
    id, followed, for the new owner, by the successor (when the source was
    still active at that time). *)
Theorem transfer_moves_inventory now lid user (track : bool) db old t :
  head (selectLootById lid db) = Some old →
  now ≤ t →
  ∃ new db',
    transferLootToUser now lid user track db = Ok (new, db')
    ∧ ∀ u, findOfUser t u db'
           = filter (λ r : Loot, id r ≠ lid) (findOfUser t u db)
             ++ (if decide (u = user)
                 then (if notDeleted t (deletedAt old) then [new] else [])
                 else []).
Proof.
  intros Hold Ht.
  pose proof (transferLootToUser_run now lid user track db old Hold) as Hrun.
  simpl in Hrun. eexists _, _. split; [exact Hrun|].
  intros u. unfold findOfUser; simpl. rewrite !filter_app.
  rewrite findOfUser_updateDeletedAt by done. f_equal.
  destruct (decide (u = user)) as [->|Hu].
  - rewrite (filter_cons_True (λ r : Loot, winnerId r = user)) by done. rewrite filter_nil.
    destruct (notDeleted t (deletedAt old)) eqn:Ha.
    + by rewrite filter_cons_True by (apply Is_true_true; exact Ha).
    + by rewrite filter_cons_False by (apply Is_true_false; exact Ha).
  - by rewrite (filter_cons_False (λ r : Loot, winnerId r = u)) by (simpl; congruence).
Qed.

(** alice's kebab goes to bob at time 200. *)
Lemma transfer_moves_inventory_witness :
  ∃ old new db',
    head (selectLootById 1 dropped) = Some old ∧ 200 ≤ 250
    ∧ transferLootToUser 200 1 "bob" true dropped = Ok (new, db')
    ∧ findOfUser 250 "alice" db' = []
    ∧ findOfUser 250 "bob" db' = [new].
Proof.
  assert (H : ∃ old, head (selectLootById 1 dropped) = Some old ∧ deletedAt old = None)
    by (eexists; split; vm_compute; reflexivity).
  destruct H as (old & Hold & Hd).
  destruct (transfer_moves_inventory 200 1 "bob" true dropped old 250 Hold ltac:(lia))
    as (new & db' & Hrun & Hinv).
  exists old, new, db'. split_and!; [exact Hold|lia|exact Hrun|..].
  - rewrite (Hinv "alice"). by vm_compute.
  - rewrite (Hinv "bob"), Hd. by vm_compute.
Defined.

Lemma getLootAttributes_eq t lid db db' :
  lootAttribute db' = lootAttribute db →
  getLootAttributes t lid db' = getLootAttributes t lid db.
Proof. unfold getLootAttributes. by intros ->. Qed.

(** X5: the attributes do not follow a transfer.  On a table whose
    attribute rows all belong to a loot row, the attribute table is left as
    it was: the rows stay under the source id, the successor has none, and
    from the transfer on the queries by attribute return neither the source
    nor the successor, whatever attribute the source carried. *)
Theorem transfer_leaves_attributes_behind now lid user (track : bool) db old :
  attributesReferToLoot db →
  head (selectLootById lid db) = Some old →
  ∃ new db',
    transferLootToUser now lid user track db = Ok (new, db')
    ∧ lootAttribute db' = lootAttribute db
    ∧ (∀ t, getLootAttributes t lid db' = getLootAttributes t lid db)
    ∧ (∀ t, getLootAttributes t (id new) db' = [])
    ∧ (∀ t k r, now ≤ t → r ∈ getLootsWithAttribute t k db' → id r ≠ lid ∧ r ≠ new)
    ∧ (∀ t k u r, now ≤ t → r ∈ getUserLootsWithAttribute t u k db' →
         id r ≠ lid ∧ r ≠ new).
Proof.
  intros Href Hold.
  pose proof (transferLootToUser_run now lid user track db old Hold) as Hrun.
  simpl in Hrun. eexists _, _. split; [exact Hrun|]. simpl.
  pose proof (no_attributes_of_next_id db Href) as Hnone.
  set (new := mkLoot (nextId (loot db)) _ _ _ _ _ _ _ _ _ _ _ _) in *.
  set (db' := mkDatabase _ _) in *.
  assert (Hno : ∀ k, hasAttribute k db' new = false).
  { intros k. apply bool_decide_eq_false.
    intros (x & Hx & [_ Hxin]%list_elem_of_filter)%list_elem_of_fmap.
    by apply (filter_nil_not_elem_of _ _ x Hnone). }
  assert (Hgone : ∀ t r, now ≤ t → activeRow t db' r → id r ≠ lid).
  { intros t r Ht [Hr Ha] Hid. subst db'; simpl in Hr.
    apply elem_of_app in Hr as [(r0 & -> & Hr0)%list_elem_of_fmap | ->%list_elem_of_singleton].
    - destruct (decide (id r0 = lid)); [|done].
      simpl in Ha. apply bool_decide_eq_true in Ha. lia.
    - assert (Hin : old ∈ selectLootById lid db) by by apply head_Some_elem_of.
      apply selectLootById_elem in Hin as [Hio Hin].
      pose proof (nextId_above _ _ Hin). simpl in Hid. lia. }
  split_and!; [done|done| |..].
  - intros t. unfold getLootAttributes; simpl. by rewrite Hnone.
  - intros t k r Ht Hr. split.
    + by eapply Hgone, getLootsWithAttribute_active.
    + intros ->. unfold getLootsWithAttribute in Hr.
      rewrite !list_elem_of_filter, !Is_true_true in Hr. destruct Hr as [Hh _].
      by rewrite Hno in Hh.
  - intros t k u r Ht Hr. split.
    + by eapply Hgone, getUserLootsWithAttribute_active.
    + intros ->. unfold getUserLootsWithAttribute in Hr.
      rewrite !list_elem_of_filter, !Is_true_true in Hr. destruct Hr as [Hh _].
      by rewrite Hno in Hh.
Qed.

(** The rare kebab at bob's is a kebab without rarity. *)
Lemma transfer_leaves_attributes_behind_witness :
  attributesReferToLoot dropped
  ∧ ∃ old new db',
      head (selectLootById 1 dropped) = Some old
      ∧ transferLootToUser 200 1 "bob" true dropped = Ok (new, db')
      ∧ getLootsWithAttribute 100 2 dropped = [old]
      ∧ getLootsWithAttribute 250 2 db' = [].
Proof.
  assert (Href : attributesReferToLoot dropped).
  { intros a Ha. revert Ha. vm_compute.
    intros [->|[]%elem_of_nil]%elem_of_cons. left. }
  assert (H : ∃ old, head (selectLootById 1 dropped) = Some old
                ∧ getLootsWithAttribute 100 2 dropped = [old])
    by (eexists; split; vm_compute; reflexivity).
  destruct H as (old & Hold & Hq). split; [exact Href|].
  destruct (transfer_leaves_attributes_behind 200 1 "bob" true dropped old Href Hold)
    as (new & db' & Hrun & _).
  exists old, new, db'. split_and!; [exact Hold|exact Hrun|exact Hq|].
  revert Hrun. vm_compute. by intros [= _ <-].
Defined.

(** *** Replacing a loot *)

(** X6: [replaceLoot] on the id of a row, with values that leave the key
    to the engine, returns a row with a fresh key and the given columns,
    except that the predecessor is the replaced id when tracking is asked
    for and null when it is not, whatever the values carried.  The rows
    under the replaced id are inactive from then on.  Values that carry a
    key the table already has, the replaced id included, make the call
    raise. *)
Theorem replacement_takes_over now lid (values : LootInsertable) (track : bool) db :
  lid ∈ lootIds db →
  (id values = None →
     ∃ new db',
       replaceLoot now lid values track db = Ok (new, db')
       ∧ (id new ∉ lootIds db)
       ∧ predecessor new = (if track then Some lid else None)
       ∧ (displayName new, description new, lootKindId new, usedImage new, winnerId new,
          claimedAt new, guildId new, channelId new, messageId new, origin new,
          deletedAt new)
         = (displayName values, description values, lootKindId values, usedImage values,
            winnerId values, claimedAt values, guildId values, channelId values,
            messageId values, origin values, deletedAt values)
       ∧ new ∈ loot db'
       ∧ (∀ t r, now ≤ t → r ∈ loot db' → id r = lid → ¬ activeRow t db' r))
  ∧ (∀ i, id values = Some i → i ∈ lootIds db →
       replaceLoot now lid values track db = Err ConstraintError).
Proof.
  intros Hin. pose proof (deleteLoot_present now lid db Hin) as Hd. split.
  - intros Hnone. unfold replaceLoot, transaction, bind. rewrite Hd.
    rewrite insertIntoLoot_fresh by done. simpl. rewrite nextId_softDeleted.
    eexists _, _. split; [reflexivity|]. simpl.
    split_and!; [apply nextId_not_in|done|done| |].
    + rewrite elem_of_app, list_elem_of_singleton. by right.
    + intros t r Ht Hr Hid [_ Ha]. simpl in Hr.
      apply elem_of_app in Hr
        as [(r0 & -> & Hr0)%list_elem_of_fmap | ->%list_elem_of_singleton].
      * destruct (decide (id r0 = lid)); [|done].
        by apply (setDeletedAt_inactive now t r0 Ht), Is_true_true.
      * simpl in Hid. apply (nextId_not_in db). by rewrite Hid.
  - intros i Hi Hini. unfold replaceLoot, transaction, bind. rewrite Hd.
    unfold insertIntoLoot. simpl. rewrite Hi, lootIds_updateDeletedAt.
    by rewrite bool_decide_eq_true_2.
Qed.

(** The kebab becomes a döner; a döner under the kebab's key does not. *)
Lemma replacement_takes_over_witness :
  (1 ∈ lootIds dropped)
  ∧ (∃ new db',
       replaceLoot 100 1 (mkLoot None "Döner" "Mit scharf" 2 None "alice"
                            "2024-05-02T10:00:00.000Z" "g" "c" "m1" "replacement"
                            (Some 7) None) true dropped = Ok (new, db')
       ∧ predecessor new = Some 1)
  ∧ replaceLoot 100 1 (mkLoot (Some 1) "Döner" "Mit scharf" 2 None "alice"
                         "2024-05-02T10:00:00.000Z" "g" "c" "m1" "replacement"
                         None None) true dropped = Err ConstraintError.
Proof.
  assert (H1 : 1 ∈ lootIds dropped) by (vm_compute; left).
  split_and!; [exact H1| |].
  - destruct (replacement_takes_over 100 1
                (mkLoot None "Döner" "Mit scharf" 2 None "alice"
                   "2024-05-02T10:00:00.000Z" "g" "c" "m1" "replacement" (Some 7) None)
                true dropped H1) as [H _].
    destruct (H eq_refl) as (new & db' & Hrun & _ & Hp & _). by exists new, db'.
  - destruct (replacement_takes_over 100 1
                (mkLoot (Some 1) "Döner" "Mit scharf" 2 None "alice"
                   "2024-05-02T10:00:00.000Z" "g" "c" "m1" "replacement" None None)
                true dropped H1) as [_ H].
    exact (H 1 eq_refl H1).
Defined.

(** *** The attributes of a loot *)

#[local] Instance byAttributeKindId_total : Total byAttributeKindId.
Proof. intros a b. unfold byAttributeKindId. lia. Qed.

#[local] Instance byAttributeKindId_trans : Transitive byAttributeKindId.
Proof. intros a b c. unfold byAttributeKindId. lia. Qed.

Lemma getLootAttributes_elem t lid db a :
  a ∈ getLootAttributes t lid db
  ↔ a ∈ lootAttribute db ∧ lootId a = lid ∧ notDeleted t (attrDeletedAt a) = true.
Proof.
  unfold getLootAttributes. rewrite merge_sort_Permutation.
  rewrite !list_elem_of_filter, Is_true_true. tauto.
Qed.

(** X7: [getLootAttributes] returns exactly the active attribute rows of
    the loot, each once per row, in ascending order of kind.  When the loot
    has no two rows of one kind, the result does not depend on the order of
    the rows in the table. *)
Theorem loot_attributes_by_kind t lid db :
  Sorted byAttributeKindId (getLootAttributes t lid db)
  ∧ getLootAttributes t lid db
    ≡ₚ filter (λ a, notDeleted t (attrDeletedAt a))
         (filter (λ a, lootId a = lid) (lootAttribute db))
  ∧ (∀ a, a ∈ getLootAttributes t lid db
          ↔ a ∈ lootAttribute db ∧ lootId a = lid ∧ notDeleted t (attrDeletedAt a) = true)
  ∧ (∀ db2,
       lootAttribute db2 ≡ₚ lootAttribute db →
       (∀ a b, a ∈ lootAttribute db → b ∈ lootAttribute db →
          lootId a = lid → lootId b = lid →
          attributeKindId a = attributeKindId b → a = b) →
       getLootAttributes t lid db2 = getLootAttributes t lid db).
Proof.
  split_and!.
  - unfold getLootAttributes. apply Sorted_merge_sort, _.
  - unfold getLootAttributes. apply merge_sort_Permutation.
  - intros a. apply getLootAttributes_elem.
  - intros db2 Hperm Huniq.
    apply (Sorted_unique_strong byAttributeKindId).
    + intros a b Ha Hb Hab Hba.
      apply getLootAttributes_elem in Ha as (Ha & Hla & _).
      apply getLootAttributes_elem in Hb as (Hb & Hlb & _).
      rewrite Hperm in Ha. apply Huniq; try done.
      unfold byAttributeKindId in *. lia.
    + unfold getLootAttributes. apply Sorted_merge_sort, _.
    + unfold getLootAttributes. apply Sorted_merge_sort, _.
    + unfold getLootAttributes. rewrite !merge_sort_Permutation. by rewrite Hperm.
Qed.

Lemma loot_attributes_by_kind_witness :
  lootAttribute twoAttributesSwapped ≡ₚ lootAttribute twoAttributes
  ∧ getLootAttributes 0 1 twoAttributesSwapped = getLootAttributes 0 1 twoAttributes
  ∧ attributeKindId <$> getLootAttributes 0 1 twoAttributes = [2; 5].
Proof.
  assert (Hp : lootAttribute twoAttributesSwapped ≡ₚ lootAttribute twoAttributes).
  { unfold twoAttributesSwapped, twoAttributes; simpl.
    apply Permutation_cons_append. }
  split_and!; [exact Hp| |by vm_compute].
  destruct (loot_attributes_by_kind 0 1 twoAttributes) as (_ & _ & _ & H).
  apply (H twoAttributesSwapped Hp).
  intros a b Ha Hb _ _. revert Ha Hb. vm_compute.
  intros [->|[->|[]%elem_of_nil]%elem_of_cons]%elem_of_cons
         [->|[->|[]%elem_of_nil]%elem_of_cons]%elem_of_cons; by intros.
Defined.

(** X8: the listing of a member's loot with attributes holds the member's
    active loot, each row once for each time [findOfUser] has it, and with
    each loot exactly the active attribute rows of the table that refer to
    it: the rows [getLootAttributes] gives for it, in whatever order the
    engine returns them (the statement asks for none). *)
Theorem inventory_lists_loot_attributes t u db :
  (findOfUserWithAttributes t u db).*1 ≡ₚ findOfUser t u db
  ∧ ∀ l attrs, (l, attrs) ∈ findOfUserWithAttributes t u db →
      l ∈ findOfUser t u db
      ∧ attrs ≡ₚ getLootAttributes t (id l) db
      ∧ ∀ a, a ∈ attrs ↔
          a ∈ lootAttribute db ∧ lootId a = id l
          ∧ notDeleted t (attrDeletedAt a) = true.
Proof.
  unfold findOfUserWithAttributes. split.
  - rewrite <- list_fmap_compose. by rewrite list_fmap_id.
  - intros l attrs (l' & [= <- ->] & Hl)%list_elem_of_fmap. split_and!; [done| |].
    + unfold getLootAttributes. by rewrite merge_sort_Permutation.
    + intros a. rewrite !list_elem_of_filter.
      unfold Is_true. destruct (notDeleted t (attrDeletedAt a)); intuition congruence.
Qed.

(** *** Deleting a loot *)

(** X9: [deleteLoot] changes the rows under the given id and nothing
    else.  The other loot rows and the whole attribute table are as before,
    so the attributes of the deleted loot are still listed for its id.  The
    update does not ask whether the loot is active: deleting again goes
    through and stamps the rows with the later time. *)
Theorem delete_touches_one_loot now lid db i db' :
  deleteLoot now lid db = Ok (i, db') →
  lootIds db' = lootIds db
  ∧ lootAttribute db' = lootAttribute db
  ∧ (∀ t l, getLootAttributes t l db' = getLootAttributes t l db)
  ∧ (∀ r, id r ≠ lid → (r ∈ loot db' ↔ r ∈ loot db))
  ∧ (∀ t u r, id r ≠ lid → (r ∈ findOfUser t u db' ↔ r ∈ findOfUser t u db))
  ∧ (∀ now2, ∃ db2,
       deleteLoot now2 lid db' = Ok (lid, db2)
       ∧ ∀ r, r ∈ loot db2 → id r = lid → deletedAt r = Some now2).
Proof.
  intros Hd. pose proof Hd as (_ & (r0 & Hr0 & Hid0) & Hl & Ha)%deleteLoot_Ok.
  assert (Hids : lootIds db' = lootIds db)
    by (unfold lootIds; by rewrite Hl, lootIds_updateDeletedAt).
  assert (Hrows : ∀ r, id r ≠ lid → (r ∈ loot db' ↔ r ∈ loot db)).
  { intros r Hne. rewrite Hl. unfold updateDeletedAt. rewrite list_elem_of_fmap. split.
    - intros (x & -> & Hx). destruct (decide (id x = lid)); [done|done].
    - intros Hr. exists r. by rewrite decide_False. }
  split_and!; [done|done|intros; by apply getLootAttributes_eq|done| |].
  - intros t u r Hne. unfold findOfUser. rewrite !list_elem_of_filter.
    by rewrite (Hrows r Hne).
  - intros now2.
    assert (Hin : lid ∈ lootIds db').
    { rewrite Hids. unfold lootIds. apply list_elem_of_fmap. by exists r0. }
    rewrite (deleteLoot_present now2 lid db' Hin). eexists. split; [done|].
    intros r Hr Hid. eapply deleteLoot_deleted; [|exact Hr|exact Hid].
    apply (deleteLoot_present now2 lid db' Hin).
Qed.

(** The used-up kebab keeps its rarity row and can be used up again. *)
Lemma delete_touches_one_loot_witness :
  deleteLoot 100 1 dropped = Ok (1, consumed)
  ∧ getLootAttributes 150 1 consumed = getLootAttributes 150 1 dropped
  ∧ getLootAttributes 150 1 consumed ≠ []
  ∧ ∃ db2, deleteLoot 300 1 consumed = Ok (1, db2).
Proof.
  assert (Hd : deleteLoot 100 1 dropped = Ok (1, consumed)) by (vm_compute; reflexivity).
  destruct (delete_touches_one_loot 100 1 dropped 1 consumed Hd) as (_ & _ & Hg & _ & _ & H2).
  split_and!; [exact Hd|apply Hg|by vm_compute|].
  destruct (H2 300) as (db2 & Hd2 & _). by exists db2.
Defined.

(** *** Whether a drop is claimed *)

Lemma findOfMessage_None t m db :
  findOfMessage t m db = None ↔ ∀ r, activeRow t db r → messageId r ≠ m.
Proof.
  unfold findOfMessage, activeRow. rewrite head_None, filter_nil_iff. split.
  - intros H r [Hr Ha] Hm. apply (H r); [|by apply Is_true_true].
    apply list_elem_of_filter. by split.
  - intros H r [Hm Hr]%list_elem_of_filter Ha%Is_true_true. by apply (H r).
Qed.

Lemma claimed_rows_deleted now t lid m rows :
  now ≤ t →
  (∀ r : Loot, r ∈ rows → messageId r = m → id r = lid) →
  filter (λ r : Loot, notDeleted t (deletedAt r))
    (filter (λ r : Loot, messageId r = m) (updateDeletedAt now lid rows)) = [].
Proof.
  intros Ht Honly. apply filter_nil_iff.
  intros x [Hm (r0 & -> & Hr0)%list_elem_of_fmap]%list_elem_of_filter.
  destruct (decide (id r0 = lid)) as [Hid|Hid].
  - by apply setDeletedAt_inactive.
  - exfalso. apply Hid. by apply Honly.
Qed.

(** X19: [findOfMessage] answers with no loot exactly when no active row
    is tied to the message.  So when the loot of a message, being the only
    one tied to it, is deleted, the message counts as unclaimed from then
    on; when it is transferred while active with no deletion time, the
    successor, which copies the message id, answers for the message
    instead. *)
Theorem message_claim_follows_the_loot now t lid m db :
  now ≤ t →
  (∀ r, r ∈ loot db → messageId r = m → id r = lid) →
  (findOfMessage t m db = None ↔ ∀ r, activeRow t db r → messageId r ≠ m)
  ∧ (∀ i db', deleteLoot now lid db = Ok (i, db') → findOfMessage t m db' = None)
  ∧ (∀ old user track new db',
       head (selectLootById lid db) = Some old →
       messageId old = m → deletedAt old = None →
       transferLootToUser now lid user track db = Ok (new, db') →
       findOfMessage t m db' = Some new ∧ winnerId new = user ∧ id new ≠ lid).
Proof.
  intros Ht Honly. split_and!.
  - apply findOfMessage_None.
  - intros i db' (_ & _ & Hl & _)%deleteLoot_Ok.
    unfold findOfMessage. rewrite Hl. by rewrite claimed_rows_deleted.
  - intros old user track new db' Hold Hm Hd Hrun.
    pose proof (transferLootToUser_run now lid user track db old Hold) as Hrun'.
    simpl in Hrun'. rewrite Hrun' in Hrun. injection Hrun as <- <-.
    unfold findOfMessage; simpl. rewrite !filter_app, claimed_rows_deleted by done.
    simpl. rewrite (filter_cons_True (λ r : Loot, messageId r = m)) by done.
    rewrite filter_nil, Hd. rewrite filter_cons_True by done. split_and!; [done..|].
    assert (Hin : old ∈ selectLootById lid db) by by apply head_Some_elem_of.
    apply selectLootById_elem in Hin as [Hio Hin].
    pose proof (nextId_above _ _ Hin). lia.
Qed.

(** The kebab of message [m1]: used up, the message is free again; handed
    to bob, it is bob's. *)
Lemma message_claim_follows_the_loot_witness :
  100 ≤ 150
  ∧ (∀ r, r ∈ loot dropped → messageId r = "m1" → id r = 1)
  ∧ findOfMessage 150 "m1" dropped ≠ None
  ∧ findOfMessage 150 "m1" consumed = None.
Proof.
  assert (H1 : (100 ≤ 150)%Z) by lia.
  assert (H2 : ∀ r, r ∈ loot dropped → messageId r = "m1" → id r = 1).
  { intros r Hr _. revert Hr. vm_compute. by intros [->|[]%elem_of_nil]%elem_of_cons. }
  split_and!; [exact H1|exact H2|by vm_compute|].
  destruct (message_claim_follows_the_loot 100 150 1 "m1" dropped H1 H2) as (_ & Hdel & _).
  apply (Hdel 1). vm_compute. reflexivity.
Defined.

End LootServiceFacts.

(* ===================================================================== *)
(** ** Further properties of the nickname vote                           *)
(* ===================================================================== *)

Module VoteFacts.
Import Nickname NicknameFacts.

(** *** What a press leaves alone *)

Lemma getUserVoteMap_other mid mid' st :
  mid' ≠ mid → idVoteMap (getUserVoteMap mid st).1 !! mid' = idVoteMap st !! mid'.
Proof.
  intros Hne. unfold getUserVoteMap. destruct (idVoteMap st !! mid); simpl; [done|].
  by rewrite lookup_insert_ne.
Qed.

Lemma getUserVoteMap_idVoteMap mid st :
  idVoteMap (getUserVoteMap mid st).1 = idVoteMap st
  ∨ idVoteMap (getUserVoteMap mid st).1 = <[mid := ∅]> (idVoteMap st).
Proof. unfold getUserVoteMap. destruct (idVoteMap st !! mid); simpl; auto. Qed.

Lemma getUserVoteMap_votesOf_any mid mid' st :
  votesOf mid' (getUserVoteMap mid st).1 = votesOf mid' st.
Proof.
  destruct (decide (mid' = mid)) as [->|Hne]; [apply getUserVoteMap_votesOf|].
  unfold votesOf. by rewrite getUserVoteMap_other.
Qed.

Lemma recordVote_other i b mid st :
  mid ≠ message_id i → idVoteMap (recordVote i b st) !! mid = idVoteMap st !! mid.
Proof.
  intros Hne. unfold recordVote, setUserVote.
  repeat case_decide; simpl; by rewrite ?lookup_insert_ne.
Qed.

Lemma handleInteraction_other (isTrusted : string → bool) i st mid :
  mid ≠ message_id i →
  idVoteMap (handleInteraction isTrusted i st).1 !! mid = idVoteMap st !! mid.
Proof.
  intros Hne. unfold handleInteraction.
  destruct (ongoingSuggestions st !! message_id i) as [s|]; [|done].
  pose proof (getUserVoteMap_other (message_id i) mid st Hne) as H1.
  destruct (getUserVoteMap (message_id i) st) as [st1 m]; simpl in H1.
  destruct (isTrusted (user_id i)); simpl; [|done].
  pose proof (recordVote_other i true mid st1 Hne) as H2.
  repeat case_decide; [|destruct (insertNickname _ _ _)|]; simpl; congruence.
Qed.

Lemma handleInteraction_untrusted (isTrusted : string → bool) i st s :
  ongoingSuggestions st !! message_id i = Some s →
  isTrusted (user_id i) = false →
  handleInteraction isTrusted i st
  = ((getUserVoteMap (message_id i) st).1, [Reply msgNotCool None true]).
Proof.
  intros Hs Ht. unfold handleInteraction. rewrite Hs.
  destruct (getUserVoteMap (message_id i) st). by rewrite Ht.
Qed.

(** X10: a press by a member who is not trusted counts for nothing: the
    votes of every message, the suggestions and the nickname table are as
    before, and the only call is the answer (that the suggestion is
    unknown, or that the vote was not counted).  All it can leave behind is
    an empty vote map for the message. *)
Theorem untrusted_press_counts_nothing (isTrusted : string → bool) i st :
  isTrusted (user_id i) = false →
  let r := handleInteraction isTrusted i st in
  (∀ mid, votesOf mid r.1 = votesOf mid st)
  ∧ ongoingSuggestions r.1 = ongoingSuggestions st
  ∧ nicknames r.1 = nicknames st
  ∧ (r.2 = [Update msgNotFound (Some [])] ∨ r.2 = [Reply msgNotCool None true])
  ∧ (idVoteMap r.1 = idVoteMap st
     ∨ idVoteMap r.1 = <[message_id i := ∅]> (idVoteMap st)).
Proof.
  intros Ht r. subst r.
  destruct (ongoingSuggestions st !! message_id i) as [s|] eqn:Hs.
  - rewrite (handleInteraction_untrusted isTrusted i st s Hs Ht). simpl.
    split_and!; [intros; apply getUserVoteMap_votesOf_any
                |apply getUserVoteMap_suggestions|apply getUserVoteMap_nicknames
                |by right|apply getUserVoteMap_idVoteMap].
  - unfold handleInteraction. rewrite Hs. simpl. split_and!; auto.
Qed.

(** The target, not trusted here, presses "no" on the own suggestion. *)
Lemma untrusted_press_counts_nothing_witness :
  guestTarget "target" = false
  ∧ votesOf "m1" (handleInteraction guestTarget (pressNo "target") proposed).1
    = votesOf "m1" proposed
  ∧ (handleInteraction guestTarget (pressNo "target") proposed).2
    = [Reply msgNotCool None true].
Proof.
  assert (H : guestTarget (user_id (pressNo "target")) = false) by reflexivity.
  destruct (untrusted_press_counts_nothing guestTarget (pressNo "target") proposed H)
    as (Hv & _ & _ & _ & _).
  split_and!; [exact H|apply Hv|vm_compute; reflexivity].
Defined.

(** X11: whoever presses, a press leaves the suggestions as they are,
    the votes of the other messages as they are, and in the vote map of its
    message the slots of the other voters as they are; the presser's own
    slot is either untouched or holds a vote flagged trusted.  The nickname
    table is as before or longer by the row of the suggestion pressed on. *)
Theorem press_touches_own_slot (isTrusted : string → bool) i st :
  let r := handleInteraction isTrusted i st in
  ongoingSuggestions r.1 = ongoingSuggestions st
  ∧ (∀ mid, mid ≠ message_id i → votesOf mid r.1 = votesOf mid st)
  ∧ (∀ u, u ≠ user_id i →
       votesOf (message_id i) r.1 !! u = votesOf (message_id i) st !! u)
  ∧ (votesOf (message_id i) r.1 !! user_id i = votesOf (message_id i) st !! user_id i
     ∨ ∃ v, votesOf (message_id i) r.1 !! user_id i = Some (mkUserVote v true))
  ∧ (nicknames r.1 = nicknames st
     ∨ ∃ s, ongoingSuggestions st !! message_id i = Some s
          ∧ nicknames r.1 = nicknames st ++ [(nicknameUserID s, nickname s)]).
Proof.
  intros r.
  assert (Hother : ∀ mid, mid ≠ message_id i → votesOf mid r.1 = votesOf mid st).
  { intros mid Hne. unfold votesOf. subst r. by rewrite handleInteraction_other. }
  destruct (isTrusted (user_id i)) eqn:Ht.
  - destruct (ongoingSuggestions st !! message_id i) as [s|] eqn:Hs.
    + destruct (handleInteraction_counted isTrusted i st s Hs Ht) as (Hv & Ho & _ & Hb).
      fold r in Hv, Ho, Hb. rewrite recorded_buttonVote in Hv.
      split_and!; [done|done| | |].
      * intros u Hu. rewrite Hv. destruct (buttonVote (customId i)); [|done].
        by rewrite lookup_insert_ne.
      * rewrite Hv. destruct (buttonVote (customId i)) as [v|]; [|by left].
        right. exists v. apply lookup_insert_eq.
      * repeat case_decide; [|destruct (nickNameExist _ _ _)|];
          destruct Hb as [_ Hn]; eauto.
    + subst r. unfold handleInteraction. rewrite Hs. simpl. split_and!; auto.
  - destruct (ongoingSuggestions st !! message_id i) as [s|] eqn:Hs.
    + subst r. rewrite (handleInteraction_untrusted isTrusted i st s Hs Ht) in *. simpl.
      rewrite getUserVoteMap_suggestions, getUserVoteMap_nicknames,
        getUserVoteMap_votesOf.
      split_and!; auto.
    + subst r. unfold handleInteraction. rewrite Hs. simpl. split_and!; auto.
Qed.

(** *** How many voters a decision takes *)

Lemma countVoters_nonneg which t (m : gmap string UserVote) : 0 ≤ countVoters which t m.
Proof. unfold countVoters. lia. Qed.

Lemma countVoters_le_size which (m : gmap string UserVote) :
  countVoters which true m + countVoters which false m ≤ Z.of_nat (size m).
Proof.
  induction m as [|k v m Hk IH] using map_ind.
  - rewrite !countVoters_empty, map_size_empty. lia.
  - rewrite !countVoters_insert_fresh, map_size_insert_None by done.
    destruct v as [w []]; simpl;
      repeat (destruct (decide _) as [?|?]); first [lia | exfalso; intuition congruence].
Qed.

Lemma weightOf_le_voters which (m : gmap string UserVote) :
  weightOf which (Object_values m)
  ≤ 2 * (countVoters which true m + countVoters which false m).
Proof.
  rewrite weightOf_summedWeight. unfold summedWeight.
  pose proof (countVoters_nonneg which false m). lia.
Qed.

(** X12: no press decides a vote that fewer than three voters stand
    behind.  When the nickname is announced (or found taken) the vote map
    holds at least three "yes" votes, when the suggestion is turned down at
    least three "no" votes; with fewer than three entries in the map the
    press is acknowledged only. *)
Theorem decision_needs_three_voters (isTrusted : string → bool) i st s :
  ongoingSuggestions st !! message_id i = Some s →
  isTrusted (user_id i) = true →
  let r := handleInteraction isTrusted i st in
  let votes := votesOf (message_id i) r.1 in
  (accepted s r.2 ∨ conflict s r.2 →
     3 ≤ countVoters YES true votes + countVoters YES false votes)
  ∧ (rejected s r.2 → 3 ≤ countVoters NO true votes + countVoters NO false votes)
  ∧ (Z.of_nat (size votes) < 3 → acknowledged r.2).
Proof.
  intros Hs Ht r votes.
  destruct (handleInteraction_counted isTrusted i st s Hs Ht) as (Hv & _ & _ & Hb).
  fold r in Hv, Hb. rewrite <- Hv in Hb. fold votes in Hb. unfold threshold in Hb.
  pose proof (weightOf_le_voters YES votes) as Hy.
  pose proof (weightOf_le_voters NO votes) as Hn.
  pose proof (countVoters_le_size YES votes) as Hys.
  pose proof (countVoters_le_size NO votes) as Hns.
  clearbody votes r. destruct r as [st' evs]; simpl in *.
  unfold accepted, conflict, rejected, acknowledged in *.
  destruct (decide (5 ≤ weightOf NO (Object_values votes))) as [Hno|Hno].
  - destruct Hb as [-> _]. split_and!; [intros [?|?]; discriminate|intros _; lia|lia].
  - destruct (decide (5 ≤ weightOf YES (Object_values votes))) as [Hyes|Hyes].
    + split_and!; [intros _; lia| |lia].
      destruct (nickNameExist _ _ _); destruct Hb as [-> _]; discriminate.
    + destruct Hb as [-> _]. split_and!; [intros [?|?]; discriminate|discriminate|done].
Qed.

(** Bob's deciding "yes" in the sample vote: target, alice and bob. *)
Lemma decision_needs_three_voters_witness :
  ongoingSuggestions afterAlice !! "m1" = Some brudi
  ∧ everyoneTrusted "bob" = true
  ∧ accepted brudi (handleInteraction everyoneTrusted (pressYes "bob") afterAlice).2
  ∧ 3 ≤ countVoters YES true
          (votesOf "m1" (handleInteraction everyoneTrusted (pressYes "bob") afterAlice).1)
        + countVoters YES false
            (votesOf "m1" (handleInteraction everyoneTrusted (pressYes "bob") afterAlice).1).
Proof.
  assert (H1 : ongoingSuggestions afterAlice !! message_id (pressYes "bob") = Some brudi)
    by (vm_compute; reflexivity).
  assert (H2 : everyoneTrusted (user_id (pressYes "bob")) = true) by reflexivity.
  assert (H3 : accepted brudi (handleInteraction everyoneTrusted (pressYes "bob") afterAlice).2)
    by (vm_compute; reflexivity).
  split_and!; [exact H1|exact H2|exact H3|].
  destruct (decision_needs_three_voters everyoneTrusted (pressYes "bob") afterAlice brudi H1 H2)
    as (H & _).
  apply H. by left.
Defined.

End VoteFacts.

(* ===================================================================== *)
(** ** Properties of the nickname command                                *)
(* ===================================================================== *)

Module NicknameCommandFacts.
Import Nickname NicknameCommand.

Section Facts.

Variable trusted_role_id : string.
Variable isTrusted : string → bool.
Variable deleteNickNames : string → NicknameTable → option NicknameTable.
Variable deleteNickName : string → string → NicknameTable → option NicknameTable.
Variable getNicknames : string → NicknameTable → option (list string).
Variable setNickname : string → option string → Members → option Members.

#[local] Abbreviation run :=
  (handleInteraction trusted_role_id isTrusted deleteNickNames deleteNickName
     getNicknames setNickname).

Lemma handleAdd_untrusted_role mid u n st :
  handleAdd isTrusted false mid u n st = (st, [Reply msgRefused None false]).
Proof. reflexivity. Qed.

Ltac answered := eexists; split_and!; reflexivity.

(** X13: a member without the trusted role changes nothing about
    another member, whatever the subcommand: the vote state, the nickname
    table and the members are as before and no call that writes is made. *)
Theorem command_without_rights_changes_nothing command st members commandUser :
  members ≫= (λ ms, ms !! command_user_id command) = Some commandUser →
  trusted_role_id ∉ roles commandUser →
  option_user_id command ≠ command_user_id command →
  (run command st members).1.1 = st
  ∧ (run command st members).1.2 = members
  ∧ Forall (λ e, isWrite e = false) (run command st members).2.
Proof.
  intros Hc Hrole Hdiff. unfold handleInteraction. rewrite Hc.
  rewrite (bool_decide_eq_false_2 _ Hrole), (bool_decide_eq_false_2 _ Hdiff). simpl.
  repeat case_decide.
  - split_and!; [done..|]. by repeat constructor.
  - destruct (getNicknames _ _) as [[|x names]|]; simpl;
      (split_and!; [done..|]); by repeat constructor.
  - rewrite ?handleAdd_untrusted_role. simpl. split_and!; [done..|]. by repeat constructor.
  - split_and!; [done..|]. by repeat constructor.
  - split_and!; [done..|]. by repeat constructor.
Qed.

(** X14: [deleteall], [list], [delete] and a subcommand the handler does
    not know answer exactly once, and the answer is their last call,
    whichever of [Nicknames.deleteNickNames], [Nicknames.deleteNickName],
    [Nicknames.getNicknames] and the reset of the member's nickname raises.
    ([add] is left out: it goes on to [command.fetchReply()] after its
    answer.)  When the sender is not among the cached members (or there is
    no guild), every subcommand, [list] and [add] included, ends in the
    [catch] block without having done anything. *)
Theorem command_answers_once command st members :
  (subcommand command ≠ "add" →
     length (filter (λ e, isReply e = true) (run command st members).2) = 1%nat
     ∧ ∃ e, last (run command st members).2 = Some e ∧ isReply e = true)
  ∧ (members ≫= (λ ms, ms !! command_user_id command) = None →
       run command st members = (st, members, [ConsoleLog; CommandReply msgNever])).
Proof.
  split.
  - intros Hadd.
    assert (Hall : ∃ e, last (run command st members).2 = Some e
              ∧ isReply e = true
              ∧ filter (λ e, isReply e = true) (run command st members).2 = [e]).
    { unfold handleInteraction, caught.
      destruct (members ≫= (λ ms, ms !! command_user_id command)) as [commandUser|];
        [|answered].
      destruct (decide (subcommand command = "deleteall"));
        [|destruct (decide (subcommand command = "list"));
          [|destruct (decide (subcommand command = "add")); [done|];
            destruct (decide (subcommand command = "delete"))]].
      - destruct (_ && _); [answered|].
        destruct (deleteNickNames _ _); [|answered].
        destruct (members ≫= (λ ms, ms !! option_user_id command)); [|answered].
        destruct (members ≫= setNickname _ _); answered.
      - destruct (getNicknames _ _) as [[|x names]|]; answered.
      - destruct (_ && _); [answered|].
        destruct (deleteNickName _ _ _); [|answered].
        destruct (members ≫= (λ ms, ms !! option_user_id command)) as [m|]; [|answered].
        destruct (decide (memberNickname m = _)); [|answered].
        destruct (members ≫= setNickname _ _); answered.
      - answered. }
    destruct Hall as (e & Hl & He & Hf). split.
    + by rewrite Hf.
    + by exists e.
  - intros H. unfold handleInteraction. by rewrite H.
Qed.

(** X15: the deletions are not undone when the step after them fails.
    For a sender with the trusted role, once the call to the table has gone
    through, a target that is not among the cached members or a platform
    that refuses to reset the nickname leaves the table as the call returned
    it, and the answer is the one of the [catch] block. *)
Theorem deletion_stays_when_reset_fails command st members commandUser t :
  members ≫= (λ ms, ms !! command_user_id command) = Some commandUser →
  trusted_role_id ∈ roles commandUser →
  let user := option_user_id command in
  let nick := option_nickname command in
  let uncached := members ≫= (λ ms, ms !! user) = None in
  let refused := members ≫= setNickname user None = None in
  (subcommand command = "deleteall" →
   deleteNickNames user (nicknames st) = Some t →
   uncached ∨ refused →
   nicknames (run command st members).1.1 = t
   ∧ (run command st members).1.2 = members
   ∧ last (run command st members).2 = Some (CommandReply msgNever))
  ∧ (subcommand command = "delete" →
     deleteNickName user nick (nicknames st) = Some t →
     uncached
     ∨ (∃ m, members ≫= (λ ms, ms !! user) = Some m ∧ memberNickname m = Some nick)
       ∧ refused →
     nicknames (run command st members).1.1 = t
     ∧ (run command st members).1.2 = members
     ∧ last (run command st members).2 = Some (CommandReply msgNever)).
Proof.
  intros Hc Hrole user nick uncached refused. subst uncached refused.
  unfold handleInteraction. rewrite Hc. rewrite (bool_decide_eq_true_2 _ Hrole). simpl.
  fold user nick. split.
  - intros Hsub Hdel Hfail. rewrite decide_True by done. rewrite Hdel.
    destruct Hfail as [Hu|Hr].
    + by rewrite Hu.
    + rewrite Hr. by destruct (members ≫= (λ ms, ms !! user)).
  - intros Hsub Hdel Hfail.
    rewrite decide_False by (rewrite Hsub; discriminate).
    rewrite decide_False by (rewrite Hsub; discriminate).
    rewrite decide_False by (rewrite Hsub; discriminate).
    rewrite decide_True by done. rewrite Hdel.
    destruct Hfail as [Hu|[(m & Hm & Hn) Hr]].
    + by rewrite Hu.
    + rewrite Hm, decide_True by done. by rewrite Hr.
Qed.

End Facts.

(** bob, without the role, tries all four subcommands on carl. *)
Lemma command_without_rights_changes_nothing_witness :
  Some sampleMembers ≫= (λ ms, ms !! "bob") = Some (mkGuildMember (Some "Bobby") ∅)
  ∧ ("trusted" ∉ roles (mkGuildMember (Some "Bobby") ∅)) ∧ "carl" ≠ "bob"
  ∧ (sampleRun (sampleCommand "deleteall" "bob" "carl" "") withRows (Some sampleMembers)).1.1
    = withRows
  ∧ (sampleRun (sampleCommand "delete" "bob" "carl" "Calle") withRows (Some sampleMembers)).2
    = [CommandReply msgRefused].
Proof.
  assert (H1 : Some sampleMembers ≫= (λ ms, ms !! "bob")
               = Some (mkGuildMember (Some "Bobby") ∅)) by (vm_compute; reflexivity).
  assert (H2 : "trusted" ∉ roles (mkGuildMember (Some "Bobby") ∅)) by (simpl; set_solver).
  assert (H3 : "carl" ≠ "bob") by discriminate.
  split_and!; [exact H1|exact H2|exact H3| |vm_compute; reflexivity].
  apply (command_without_rights_changes_nothing "trusted" everyoneTrusted
           sampleDeleteNickNames sampleDeleteNickName sampleGetNicknames sampleSetNickname
           (sampleCommand "deleteall" "bob" "carl" "") withRows (Some sampleMembers)
           (mkGuildMember (Some "Bobby") ∅) H1 H2 H3).
Defined.

(** alice, with the role, deletes all nicknames of carl, who is not
    cached. *)
Lemma deletion_stays_when_reset_fails_witness :
  Some sampleMembers ≫= (λ ms, ms !! "alice") = Some (mkGuildMember None {[ "trusted" ]})
  ∧ ("trusted" ∈ roles (mkGuildMember None {[ "trusted" ]}))
  ∧ nicknames (sampleRun (sampleCommand "deleteall" "alice" "carl" "") withRows
                 (Some sampleMembers)).1.1
    = [("bob", "Bobby")]
  ∧ last (sampleRun (sampleCommand "deleteall" "alice" "carl" "") withRows
            (Some sampleMembers)).2
    = Some (CommandReply msgNever).
Proof.
  assert (H1 : Some sampleMembers ≫= (λ ms, ms !! "alice")
               = Some (mkGuildMember None {[ "trusted" ]})) by (vm_compute; reflexivity).
  assert (H2 : "trusted" ∈ roles (mkGuildMember None {[ "trusted" ]}))
    by (simpl; set_solver).
  destruct (deletion_stays_when_reset_fails "trusted" everyoneTrusted
              sampleDeleteNickNames sampleDeleteNickName sampleGetNicknames sampleSetNickname
              (sampleCommand "deleteall" "alice" "carl" "") withRows (Some sampleMembers)
              (mkGuildMember None {[ "trusted" ]}) [("bob", "Bobby")] H1 H2) as [H _].
  destruct H as (Hn & _ & Hl); [reflexivity|vm_compute; reflexivity|left; vm_compute; reflexivity|].
  split_and!; [exact H1|exact H2|exact Hn|exact Hl].
Defined.

(** alice deletes bob's current nickname; carl, whom the cache does not
    hold, asks for a list. *)
Lemma command_answers_once_witness :
  subcommand (sampleCommand "delete" "alice" "bob" "Bobby") ≠ "add"
  ∧ Some sampleMembers ≫= (λ ms, ms !! "carl") = None
  ∧ length (filter (λ e, isReply e = true)
              (sampleRun (sampleCommand "delete" "alice" "bob" "Bobby") withRows
                 (Some sampleMembers)).2) = 1%nat
  ∧ (sampleRun (sampleCommand "delete" "alice" "bob" "Bobby") withRows
       (Some sampleMembers)).2
    = [DeleteNickName "bob" "Bobby"; SetNickname "bob" None;
       CommandReply "Ok Brudi. Hab für <@bob> Bobby gelöscht"]
  ∧ sampleRun (sampleCommand "list" "carl" "bob" "") withRows (Some sampleMembers)
    = (withRows, Some sampleMembers, [ConsoleLog; CommandReply msgNever]).
Proof.
  assert (H1 : subcommand (sampleCommand "delete" "alice" "bob" "Bobby") ≠ "add")
    by discriminate.
  assert (H2 : Some sampleMembers ≫= (λ ms, ms !! "carl") = None)
    by (vm_compute; reflexivity).
  destruct (command_answers_once "trusted" everyoneTrusted
              sampleDeleteNickNames sampleDeleteNickName sampleGetNicknames sampleSetNickname
              (sampleCommand "delete" "alice" "bob" "Bobby") withRows (Some sampleMembers))
    as [Hone _].
  destruct (command_answers_once "trusted" everyoneTrusted
              sampleDeleteNickNames sampleDeleteNickName sampleGetNicknames sampleSetNickname
              (sampleCommand "list" "carl" "bob" "") withRows (Some sampleMembers))
    as [_ Hnone].
  destruct (Hone H1) as [Hlen _].
  split_and!; [exact H1|exact H2|exact Hlen|vm_compute; reflexivity|exact (Hnone H2)].
Defined.

End NicknameCommandFacts.

(* ===================================================================== *)
(** ** Properties of the toggle command                                  *)
(* ===================================================================== *)

Module ToggleFacts.
Import Toggle.

(** X16: [toggleSdm] edits the message down to its first embed with the
    colour switched: to the "no" colour and image when it had the "yes"
    colour, to the "yes" colour and image in every other case; author and
    fields stay.  From the first toggle on the message alternates between
    the two: a third toggle gives what the first gave. *)
Theorem sdm_toggle_alternates message embed rest :
  embeds message = embed :: rest →
  let once := afterToggle (toggleSdm message) message in
  let twice := afterToggle (toggleSdm once) once in
  ∃ toggled file,
    toggleSdm message = Edited (mkEdit [toggled] ["./assets/" +:+ file])
    ∧ thumbnail toggled = Some ("attachment://" +:+ file)
    ∧ author toggled = author embed ∧ fields toggled = fields embed
    ∧ (color embed = Some yesColor → color toggled = Some noColor ∧ file = "no.png")
    ∧ (color embed ≠ Some yesColor → color toggled = Some yesColor ∧ file = "yes.png")
    ∧ afterToggle (toggleSdm twice) twice = once
    ∧ (color embed = Some yesColor → embeds twice = [setThumbnail "attachment://yes.png" embed])
    ∧ (color embed = Some noColor → embeds twice = [setThumbnail "attachment://no.png" embed]).
Proof.
  intros He once twice. subst once twice. unfold toggleSdm. rewrite He.
  destruct embed as [a c f th]; simpl.
  destruct (decide (c = Some yesColor)) as [->|Hc].
  - eexists _, _. split_and!; try done.
  - rewrite (bool_decide_eq_false_2 _ Hc). simpl.
    eexists _, _. split_and!; try done. by intros ->.
Qed.

Lemma sdm_toggle_alternates_witness :
  embeds (mkMessage [sdmYes]) = sdmYes :: []
  ∧ ∃ toggled, toggleSdm (mkMessage [sdmYes]) = Edited (mkEdit [toggled] ["./assets/no.png"])
      ∧ color toggled = Some noColor
      ∧ toggleSdm (mkMessage [toggled]) = Edited (mkEdit [sdmYes] ["./assets/yes.png"]).
Proof.
  split; [reflexivity|].
  destruct (sdm_toggle_alternates (mkMessage [sdmYes]) sdmYes [] eq_refl)
    as (toggled & file & Ht & _ & _ & _ & Hy & _).
  destruct (Hy eq_refl) as [Hc ->]. exists toggled.
  split_and!; [exact Ht|exact Hc|]. revert Ht. vm_compute. by intros [= <-].
Defined.

Ltac decided :=
  repeat first [ rewrite bool_decide_eq_true_2 by done
               | rewrite bool_decide_eq_false_2 by done
               | progress simpl ].

Section Poll.

Variable LETTERS : list string.
Variable OPTION_LIMIT : nat.

(** X17: [togglePoll] leaves a poll alone that has exactly the limit of
    option fields and returns the text that it is full.  Any other poll is
    edited down to its first embed with the colour switched, to the extend
    colour when it had another one or none, to none when it had the extend
    colour; author, fields and thumbnail stay, so a poll that is not full
    stays not full, and a third toggle gives what the first gave. *)
Theorem poll_toggle_flips_colour message pollEmbed rest :
  embeds message = pollEmbed :: rest →
  let options := List.filter (isPollField LETTERS) (fields pollEmbed) in
  let once := afterToggle (togglePoll LETTERS OPTION_LIMIT message) message in
  let twice := afterToggle (togglePoll LETTERS OPTION_LIMIT once) once in
  (length options = OPTION_LIMIT →
     togglePoll LETTERS OPTION_LIMIT message = Answer "Bruder die ist eh schon voll :<"
     ∧ once = message)
  ∧ (length options ≠ OPTION_LIMIT →
       ∃ toggled,
         togglePoll LETTERS OPTION_LIMIT message = Edited (mkEdit [toggled] [])
         ∧ author toggled = author pollEmbed ∧ fields toggled = fields pollEmbed
         ∧ thumbnail toggled = thumbnail pollEmbed
         ∧ (color pollEmbed ≠ Some extendColor → color toggled = Some extendColor)
         ∧ (color pollEmbed = Some extendColor → color toggled = None)
         ∧ afterToggle (togglePoll LETTERS OPTION_LIMIT twice) twice = once
         ∧ (color pollEmbed = Some extendColor ∨ color pollEmbed = None →
              embeds twice = [pollEmbed])).
Proof.
  intros He options once twice. subst options once twice.
  unfold togglePoll. rewrite He. destruct pollEmbed as [a c f th]; simpl.
  split.
  - intros Hfull. by rewrite (bool_decide_eq_true_2 _ Hfull).
  - intros Hnot.
    destruct (decide (c = Some extendColor)) as [->|Hc].
    + decided. eexists. split_and!; try done.
    + decided. eexists. split_and!; try done. intros [? | ->]; done.
Qed.

Lemma toggleAndDelete_Returns t r :
  toggleAndDelete t = Returns r → returned r = None ∧ deleted r = true.
Proof. destruct t; simpl; intros [= <-]; done. Qed.

(** X18: [run] does nothing for a member who is no moderator.  When it
    returns, it has either returned a text or deleted the command message,
    never both, and an edit of the referenced message only comes with the
    deletion.  On a poll that is full the command message is deleted and
    nothing is returned: the text of [togglePoll] does not reach the
    caller. *)
Theorem toggle_run_outcomes isMod reference channels :
  (isMod = false → run LETTERS OPTION_LIMIT isMod reference channels = Returns nothing)
  ∧ (∀ r, run LETTERS OPTION_LIMIT isMod reference channels = Returns r →
       (is_Some (returned r) → deleted r = false ∧ edited r = None)
       ∧ (is_Some (edited r) → deleted r = true)
       ∧ (deleted r = true → isMod = true ∧ returned r = None))
  ∧ (∀ ref mid channel message pollEmbed rest pollAuthor,
       isMod = true →
       reference = Some ref → messageId ref = Some mid → mid ≠ "" →
       channels !! channelId ref = Some channel → isTextBased channel = true →
       messages channel !! mid = Some message →
       embeds message = pollEmbed :: rest →
       author pollEmbed = Some pollAuthor →
       String.prefix "Umfrage" pollAuthor || String.prefix "Strawpoll" pollAuthor = true →
       length (List.filter (isPollField LETTERS) (fields pollEmbed)) = OPTION_LIMIT →
       run LETTERS OPTION_LIMIT isMod reference channels = Returns (mkRan None None true)).
Proof.
  split_and!.
  - by intros ->.
  - intros r Hr.
    assert (Hshape : r = nothing
                     ∨ (∃ text, r = answer text)
                     ∨ (isMod = true ∧ returned r = None ∧ deleted r = true)).
    { revert Hr. unfold run. destruct isMod; simpl; [|intros [= <-]; by left].
      repeat case_match; try (intros [= <-]; eauto; fail);
        intros (? & ?)%toggleAndDelete_Returns; eauto. }
    destruct Hshape as [->|[[text ->]|(-> & Hret & Hdel)]]; simpl.
    + split_and!; [by intros [? ?]|by intros [? ?]|done].
    + split_and!; [done|by intros [? ?]|done].
    + rewrite Hret, Hdel. split_and!; [by intros [? ?]|done|done].
  - intros ref mid channel message pollEmbed rest pollAuthor
      -> -> Hmid Hne Hch Htext Hmsg He Ha Hpoll Hfull.
    unfold run. simpl. rewrite Hmid, decide_False, Hch, Htext by done. simpl.
    rewrite Hmsg, He, Ha, Hpoll. unfold togglePoll. rewrite He.
    by rewrite (bool_decide_eq_true_2 _ Hfull).
Qed.

End Poll.

(** The sample poll has two option fields: not full under a limit of
    three, full under a limit of two. *)
Lemma poll_toggle_flips_colour_witness :
  embeds (mkMessage [umfrage]) = umfrage :: []
  ∧ togglePoll ["A"; "B"; "C"] 3 (mkMessage [umfrage])
    = Edited (mkEdit [setColor (Some extendColor) umfrage] [])
  ∧ togglePoll ["A"; "B"; "C"] 2 (mkMessage [umfrage])
    = Answer "Bruder die ist eh schon voll :<".
Proof.
  split; [reflexivity|]. split.
  - destruct (poll_toggle_flips_colour ["A"; "B"; "C"] 3 (mkMessage [umfrage]) umfrage []
                eq_refl) as [_ H].
    destruct H as (toggled & Ht & _); [by vm_compute|].
    rewrite Ht. revert Ht. vm_compute. by intros [= <-].
  - destruct (poll_toggle_flips_colour ["A"; "B"; "C"] 2 (mkMessage [umfrage]) umfrage []
                eq_refl) as [H _].
    apply H. by vm_compute.
Defined.

(** A moderator toggles the full sample poll; someone else tries to. *)
Lemma toggle_run_outcomes_witness :
  run ["A"; "B"; "C"] 2 true inReplyTo (channelsOf umfrage) = Returns (mkRan None None true)
  ∧ run ["A"; "B"; "C"] 2 false inReplyTo (channelsOf umfrage) = Returns nothing.
Proof.
  destruct (toggle_run_outcomes ["A"; "B"; "C"] 2 true inReplyTo (channelsOf umfrage))
    as (_ & _ & Hfull).
  destruct (toggle_run_outcomes ["A"; "B"; "C"] 2 false inReplyTo (channelsOf umfrage))
    as (Hno & _).
  split; [|by apply Hno].
  apply (Hfull (mkReference "c" (Some "m")) "m"
           (mkChannel true {[ "m" := mkMessage [umfrage] ]}) (mkMessage [umfrage])
           umfrage [] "Umfrage von alice"); try reflexivity; try discriminate.
Defined.

End ToggleFacts.
